(** * Workflow engine: a shallow embedding of [api/services/workflow]

    The development follows the Go package file by file:
    - [models.go]    : [Workflow], [Node], [Edge], [ExecutionResults], ...
    - [executor.go]  : [ExecutionState], [StepResult], [NodeExecutor], [Registry]
    - [executors.go] : the six node executors and [evaluateCondition]
    - [engine.go]    : [findStartNode], [buildEdgeMap], [Execute]
    - [workflow.go]  : [validateExecuteRequest] and the two HTTP handlers

    The embedding comes first, then the notions the properties are stated
    with, then concrete inputs, then the properties, and last the runs of
    the engine on concrete inputs.

    Go values of type [float64] are IEEE 754 binary64 numbers; they are
    modelled by the Standard Library's [spec_float] at precision 53 and
    maximal exponent 1024.  Go maps are stdpp's [gmap].  The two pointers
    [Execute] receives ([wf *Workflow], [state *ExecutionState]) point into a
    store that every executor can reach; the store is threaded explicitly. *)

From Stdlib Require Import ZArith String Ascii List Bool Lia.
From Stdlib Require Import Floats.SpecFloat.
From Stdlib Require Import DecimalString DecimalN.
From stdpp Require Import gmap strings list fin_maps.

Local Open Scope string_scope.
Local Open Scope list_scope.
Local Open Scope Z_scope.

(** ** IEEE 754 binary64 *)

Module F64.

Definition prec : Z := 53.
Definition emax : Z := 1024.

Definition float64 : Type := spec_float.

Definition mul : float64 -> float64 -> float64 := SFmul prec emax.
Definition div : float64 -> float64 -> float64 := SFdiv prec emax.

(** Go's comparison operators on [float64]: every comparison with a NaN is
    false. *)
Definition lt (x y : float64) : bool := SFltb x y.
Definition le (x y : float64) : bool := SFleb x y.
Definition eq (x y : float64) : bool := SFeqb x y.
Definition gt (x y : float64) : bool := SFltb y x.
Definition ge (x y : float64) : bool := SFleb y x.

(** Conversion of an integer ([float64(n)], and integer constants used in a
    [float64] expression): nearest even. *)
Definition of_Z (z : Z) : float64 := binary_normalize prec emax z 0 false.

(** [float64(x)] for [x : float32]: exact, the value is re-normalised to
    a 53 bit mantissa. *)
Definition of_float32 (x : spec_float) : float64 :=
  match x with
  | S754_finite s m e => binary_normalize prec emax (cond_Zopp s (Zpos m)) e s
  | _ => x
  end.

Definition is_nan (x : float64) : bool :=
  match x with S754_nan => true | _ => false end.

(** Go's [math.Round]: the nearest integer, halves away from zero;
    [Round(±0) = ±0], [Round(±Inf) = ±Inf], [Round(NaN) = NaN].  A finite
    [m * 2^e] with [e < 0] has integer part [m >> -e]; its fraction is at
    least one half exactly when bit [-e - 1] of [m] is set. *)
Definition Round (x : float64) : float64 :=
  match x with
  | S754_finite s m e =>
      if 0 <=? e then x
      else
        let k := - e in
        let q := Z.shiftr (Zpos m) k in
        let n := if Z.testbit (Zpos m) (k - 1) then q + 1 else q in
        binary_normalize prec emax (cond_Zopp s n) 0 s
  | _ => x
  end.

(** [fmt.Sprintf("%.1f", x)]: the exact value of [x], rounded to one
    decimal (nearest, ties to even), printed in positional notation. *)
Definition tenths (m : positive) (e : Z) : Z :=
  if 0 <=? e then Zpos m * 2 ^ e * 10
  else
    let den := 2 ^ (- e) in
    let num := Zpos m * 10 in
    let q := num / den in
    let r := num mod den in
    match 2 * r ?= den with
    | Lt => q
    | Gt => q + 1
    | Eq => if Z.even q then q else q + 1
    end.

Definition decimal (z : Z) : string :=
  NilZero.string_of_uint (N.to_uint (Z.to_N z)).

Definition format_f1 (x : float64) : string :=
  match x with
  | S754_nan => "NaN"
  | S754_infinity false => "+Inf"
  | S754_infinity true => "-Inf"
  | S754_zero s => (if s then "-" else EmptyString) +:+ "0.0"
  | S754_finite s m e =>
      let n := tenths m e in
      (if s then "-" else EmptyString)
        +:+ decimal (n / 10) +:+ "." +:+ decimal (n mod 10)
  end.

End F64.

Abbreviation float64 := F64.float64.

(** ** Go library functions used by the package

    Functions of Go's standard library whose exact tables (Unicode case
    folding, Unicode white space, quoting, calendar arithmetic) play no part
    in the engine are taken as they are. *)

Class GoLib : Type := {
  (** [strings.TrimSpace] *)
  TrimSpace : string -> string;
  (** [strings.EqualFold] *)
  EqualFold : string -> string -> bool;
  (** the verb [%q] of [fmt] on a string ([strconv.Quote]) *)
  Quote : string -> string;
  (** [t.UTC().Format(time.RFC3339)], a [time.Time] being the number of
      nanoseconds since the epoch *)
  FormatRFC3339 : Z -> string;
}.

(** [strings.NewReplacer(old1, new1, ...).Replace(s)]: the target is scanned
    from left to right; at each position the [old] strings are compared in
    argument order, a match is replaced and skipped, matches do not overlap.
    Every [old] is non-empty here. *)

Definition Replacer : Type := list (string * string).

Fixpoint Replacer_match (r : Replacer) (s : string) : option (string * string) :=
  match r with
  | [] => None
  | (old, new) :: r' =>
      if String.prefix old s then Some (old, new) else Replacer_match r' s
  end.

Fixpoint Replacer_scan (r : Replacer) (skip : nat) (s : string) : string :=
  match s with
  | EmptyString => EmptyString
  | String c s' =>
      match skip with
      | S k => Replacer_scan r k s'
      | O =>
          match Replacer_match r s with
          | Some (old, new) =>
              new +:+ Replacer_scan r (Nat.pred (String.length old)) s'
          | None => String c (Replacer_scan r O s')
          end
      end
  end.

Definition Replacer_Replace (r : Replacer) (s : string) : string :=
  Replacer_scan r O s.

(** ** Values of type [any] *)

#[warnings="-register-all"]
Inductive value : Type :=
  | VNil                              (* the nil interface *)
  | VBool (b : bool)
  | VString (s : string)
  | VFloat64 (f : float64)
  | VFloat32 (f : spec_float)
  | VInt (n : Z)
  | VInt64 (n : Z)
  | VSlice (l : list value)           (* []any *)
  | VMap (m : gmap string value).     (* map[string]any *)

(** [m[k]] on a [map[string]any]: the nil interface when [k] is absent
    (also when the map itself is nil). *)
Definition index (m : gmap string value) (k : string) : value :=
  default VNil (m !! k).

(** [x, _ := v.(T)]: the zero value of [T] when the assertion fails. *)
Definition assertString (v : value) : string :=
  match v with VString s => s | _ => EmptyString end.

Definition assertFloat64 (v : value) : float64 :=
  match v with VFloat64 f => f | _ => S754_zero false end.

Definition assertSlice (v : value) : list value :=
  match v with VSlice l => l | _ => [] end.

Definition assertMap (v : value) : gmap string value :=
  match v with VMap m => m | _ => ∅ end.

(** ** models.go *)

Record Position : Type := {
  Position_X : float64;
  Position_Y : float64;
}.

Record NodeData : Type := {
  Data_Label : string;
  Data_Description : string;
  Data_Metadata : gmap string value;
}.

Record Node : Type := {
  Node_ID : string;
  Node_Type : string;
  Node_Position : Position;
  Node_Data : NodeData;
}.

Record Edge : Type := {
  Edge_ID : string;
  Edge_Source : string;
  Edge_Target : string;
  Edge_Label : string;
  Edge_Type : string;
  Edge_SourceHandle : string;
  Edge_TargetHandle : string;
  Edge_Animated : bool;
  Edge_Style : gmap string value;
  Edge_LabelStyle : gmap string value;
}.

Record Workflow : Type := {
  Workflow_ID : string;
  Workflow_Name : string;
  Nodes : list Node;
  Edges : list Edge;
  CreatedAt : Z;
  UpdatedAt : Z;
}.

Record ConditionInput : Type := {
  Operator : string;
  Threshold : float64;
}.

Record ExecutionStep : Type := {
  Step_StepNumber : Z;
  Step_NodeID : string;
  Step_NodeType : string;
  Step_Type : string;
  Step_Label : string;
  Step_Status : string;
  Step_Duration : Z;
  Step_Output : gmap string value;
  Step_Timestamp : string;
  Step_Error : string;
}.

Record ExecutionResults : Type := {
  ExecutionID : string;
  Status : string;
  StartTime : string;
  EndTime : string;
  TotalDuration : Z;
  Steps : list ExecutionStep;
  Results_Metadata : gmap string value;
}.

(** ** executor.go *)

(** [Variables] is [None] for a nil map: reading a nil map finds nothing,
    writing to it panics. *)
Record ExecutionState : Type := {
  FormData : gmap string value;
  Condition : ConditionInput;
  Variables : option (gmap string value);
}.

Record StepResult : Type := {
  Result_NodeID : string;
  Result_NodeType : string;
  Result_Label : string;
  Result_Status : string;
  Result_Output : gmap string value;
  Result_Duration : Z;
  Result_Error : string;
}.

(** [WeatherClient.GetTemperature]: an external service.  Its answer to the
    [k]-th lookup of a run at the given coordinates is either a temperature
    or the text of an error. *)
Inductive LookupResult : Type :=
  | Temperature (t : float64)
  | LookupError (msg : string).

Definition WeatherClient : Type := nat -> float64 -> float64 -> LookupResult.

(** ** The store and the world around a run *)

(** What [time.Now] and [uuid.New] answer during one call of [Execute]. *)
Record Env : Type := {
  clock : nat -> Z;
  uuid : string;
}.

(** The objects behind the pointers [wf] and [state], and how often the
    clock and the weather service have been consulted so far. *)
Record Store : Type := {
  heapWorkflow : Workflow;
  heapState : ExecutionState;
  clockReads : nat;
  apiCalls : nat;
}.

Definition M (A : Type) : Type := Env -> Store -> A * Store.

Definition ret {A : Type} (a : A) : M A := fun _ s => (a, s).

Definition bind {A B : Type} (c : M A) (k : A -> M B) : M B :=
  fun env s => let (a, s') := c env s in k a env s'.

Notation "x <- c1 ;; c2" := (bind c1 (fun x => c2))
  (at level 100, c1 at next level, right associativity).
Notation "c1 ;;; c2" := (bind c1 (fun _ => c2))
  (at level 100, right associativity).

(** [time.Now()] *)
Definition timeNow : M Z :=
  fun env s =>
    (clock env (clockReads s),
     {| heapWorkflow := heapWorkflow s; heapState := heapState s;
        clockReads := S (clockReads s); apiCalls := apiCalls s |}).

(** [uuid.New().String()] *)
Definition uuidNew : M string := fun env s => (uuid env, s).

(** [*wf] and [*state] *)
Definition readWorkflow : M Workflow := fun _ s => (heapWorkflow s, s).
Definition readState : M ExecutionState := fun _ s => (heapState s, s).

Definition writeState (st : ExecutionState) : M unit :=
  fun _ s =>
    (tt, {| heapWorkflow := heapWorkflow s; heapState := st;
            clockReads := clockReads s; apiCalls := apiCalls s |}).

(** [state.Variables[k]], with the [ok] of the two-valued form. *)
Definition lookupVariable (st : ExecutionState) (k : string) : option value :=
  match Variables st with
  | Some vars => vars !! k
  | None => None
  end.

(** [state.Variables[k] = v]; the answer is [false] when the map is nil, where
    Go panics (assignment to entry in nil map). *)
Definition setVariable (k : string) (v : value) : M bool :=
  st <- readState ;;
  match Variables st with
  | Some vars =>
      writeState {| FormData := FormData st; Condition := Condition st;
                    Variables := Some (<[k := v]> vars) |} ;;;
      ret true
  | None => ret false
  end.

(** [client.GetTemperature(ctx, lat, lon)] *)
Definition GetTemperature (client : WeatherClient) (lat lon : float64)
  : M LookupResult :=
  fun _ s =>
    (client (apiCalls s) lat lon,
     {| heapWorkflow := heapWorkflow s; heapState := heapState s;
        clockReads := clockReads s; apiCalls := S (apiCalls s) |}).

(** What a call [executor.Execute(ctx, node, state)] comes back with:
    [(result, nil)], [(nil, err)] with the text of [err], or a run-time
    panic. *)
Inductive HandlerReturn : Type :=
  | Done (result : StepResult)
  | Failed (err : string)
  | Panicked.

Section Workflow.

Context `{GoLib}.

(** ** executors.go *)

Definition completed (node : Node) (output : gmap string value) : StepResult :=
  {| Result_NodeID := Node_ID node;
     Result_NodeType := Node_Type node;
     Result_Label := Data_Label (Node_Data node);
     Result_Status := "completed";
     Result_Output := output;
     Result_Duration := 0;
     Result_Error := EmptyString |}.

Definition StartExecutor_Execute (node : Node) : M HandlerReturn :=
  ret (Done (completed node
               {[ "message" := VString "Workflow execution started" ]})).

(** The loop of [FormExecutor.Execute] over the required fields; [Some] is
    the error it returns. *)
Fixpoint checkFields (fields : list string) (formData : gmap string value)
  : option string :=
  match fields with
  | [] => None
  | field :: rest =>
      match formData !! field with
      | None => Some ("missing required field: " +:+ field)
      | Some (VString s) =>
          if String.eqb (TrimSpace s) EmptyString
          then Some ("field " +:+ field +:+ " must be a non-empty string")
          else checkFields rest formData
      | Some _ => Some ("field " +:+ field +:+ " must be a non-empty string")
      end
  end.

(** The verb [%s] receives [state.FormData["name"]], which the loop has found
    to be a string. *)
Definition FormExecutor_Execute (node : Node) : M HandlerReturn :=
  state <- readState ;;
  match checkFields ["name"; "email"; "city"] (FormData state) with
  | Some err => ret (Failed err)
  | None =>
      ret (Done (completed node
        (list_to_map
           [("message",
             VString ("Collected user input for "
                      +:+ assertString (index (FormData state) "name")));
            ("formData", VMap (FormData state))])))
  end.

Definition toFloat64 (v : value) : float64 * bool :=
  match v with
  | VFloat64 n => (n, true)
  | VFloat32 n => (F64.of_float32 n, true)
  | VInt n => (F64.of_Z n, true)
  | VInt64 n => (F64.of_Z n, true)
  | _ => (S754_zero false, false)
  end.

(** The search of [IntegrationExecutor.Execute] through the options of the
    node. *)
Inductive Coordinates : Type :=
  | CoordinatesFound (lat lon : float64)
  | CoordinatesInvalid
  | CoordinatesNotFound.

Fixpoint findCoordinates (city : string) (options : list value) : Coordinates :=
  match options with
  | [] => CoordinatesNotFound
  | opt :: rest =>
      match opt with
      | VMap m =>
          if EqualFold (assertString (index m "city")) city
          then
            let (lat, okLat) := toFloat64 (index m "lat") in
            let (lon, okLon) := toFloat64 (index m "lon") in
            if negb okLat || negb okLon then CoordinatesInvalid
            else CoordinatesFound lat lon
          else findCoordinates city rest
      | _ => findCoordinates city rest
      end
  end.

Definition IntegrationExecutor_Execute (client : WeatherClient) (node : Node)
  : M HandlerReturn :=
  state <- readState ;;
  let city := assertString (index (FormData state) "city") in
  let options :=
    assertSlice (index (Data_Metadata (Node_Data node)) "options") in
  match findCoordinates city options with
  | CoordinatesInvalid =>
      ret (Failed ("invalid coordinates for city " +:+ Quote city))
  | CoordinatesNotFound =>
      ret (Failed ("city " +:+ Quote city +:+ " not found in available options"))
  | CoordinatesFound lat lon =>
      let endpoint :=
        assertString (index (Data_Metadata (Node_Data node)) "apiEndpoint") in
      r <- GetTemperature client lat lon ;;
      match r with
      | LookupError err => ret (Failed ("weather API error: " +:+ err))
      | Temperature temperature =>
          ok <- setVariable "temperature" (VFloat64 temperature) ;;
          if ok : bool then
            ret (Done (completed node
              (list_to_map
                 [("message",
                   VString ("Current temperature in " +:+ city +:+ ": "
                            +:+ F64.format_f1 temperature +:+ "°C"));
                  ("temperature", VFloat64 temperature);
                  ("location", VString city);
                  ("apiResponse",
                   VMap (list_to_map
                     [("endpoint", VString endpoint);
                      ("method", VString "GET");
                      ("statusCode", VInt 200);
                      ("data",
                       VMap {[ "temperature" := VFloat64 temperature ]})]))])))
          else ret Panicked
      end
  end.

Definition ten : float64 := F64.of_Z 10.

Definition evaluateCondition (temperature : float64) (operator : string)
    (threshold : float64) : bool :=
  let t := F64.div (F64.Round (F64.mul temperature ten)) ten in
  let th := F64.div (F64.Round (F64.mul threshold ten)) ten in
  if String.eqb operator "greater_than" then F64.gt t th
  else if String.eqb operator "less_than" then F64.lt t th
  else if String.eqb operator "equals" then F64.eq t th
  else if String.eqb operator "greater_than_or_equal" then F64.ge t th
  else if String.eqb operator "less_than_or_equal" then F64.le t th
  else false.

Definition operatorSymbol (op : string) : string :=
  if String.eqb op "greater_than" then ">"
  else if String.eqb op "less_than" then "<"
  else if String.eqb op "equals" then "="
  else if String.eqb op "greater_than_or_equal" then ">="
  else if String.eqb op "less_than_or_equal" then "<="
  else "?".

Definition operatorLabel (op : string) : string :=
  if String.eqb op "greater_than" then "greater than"
  else if String.eqb op "less_than" then "less than"
  else if String.eqb op "equals" then "equal to"
  else if String.eqb op "greater_than_or_equal" then "greater than or equal to"
  else if String.eqb op "less_than_or_equal" then "less than or equal to"
  else op.

Definition branchToken (result : bool) : string :=
  if result then "true" else "false".

Definition ConditionExecutor_Execute (node : Node) : M HandlerReturn :=
  state <- readState ;;
  match lookupVariable state "temperature" with
  | None => ret (Failed "temperature variable not set")
  | Some tempRaw =>
      let (temperature, ok) := toFloat64 tempRaw in
      if negb ok then ret (Failed "temperature is not a number")
      else
        let operator := Operator (Condition state) in
        let threshold := Threshold (Condition state) in
        let result := evaluateCondition temperature operator threshold in
        stored <- setVariable "conditionResult" (VString (branchToken result)) ;;
        if stored : bool then
          let symbol := operatorSymbol operator in
          let expression :=
            F64.format_f1 temperature +:+ " " +:+ symbol +:+ " "
              +:+ F64.format_f1 threshold in
          let message :=
            if result then
              "Temperature " +:+ F64.format_f1 temperature +:+ "°C is "
                +:+ operatorLabel operator +:+ " "
                +:+ F64.format_f1 threshold +:+ "°C - condition met"
            else
              "Temperature " +:+ F64.format_f1 temperature +:+ "°C is not "
                +:+ operatorLabel operator +:+ " "
                +:+ F64.format_f1 threshold +:+ "°C - condition not met" in
          ret (Done (completed node
            (list_to_map
               [("message", VString message);
                ("conditionMet", VBool result);
                ("conditionResult",
                 VMap (list_to_map
                   [("expression", VString expression);
                    ("result", VBool result);
                    ("temperature", VFloat64 temperature);
                    ("operator", VString operator);
                    ("threshold", VFloat64 threshold)]))])))
        else ret Panicked
  end.

Definition emailReplacer (name city : string) (temperature : float64)
  : Replacer :=
  [("{{name}}", name);
   ("{{city}}", city);
   ("{{temperature}}", F64.format_f1 temperature)].

Definition EmailExecutor_Execute (node : Node) : M HandlerReturn :=
  state <- readState ;;
  let name := assertString (index (FormData state) "name") in
  let email := assertString (index (FormData state) "email") in
  let city := assertString (index (FormData state) "city") in
  let temperature :=
    assertFloat64 (default VNil (lookupVariable state "temperature")) in
  let tmpl :=
    assertMap (index (Data_Metadata (Node_Data node)) "emailTemplate") in
  let subject := assertString (index tmpl "subject") in
  let body := assertString (index tmpl "body") in
  let replacer := emailReplacer name city temperature in
  let body := Replacer_Replace replacer body in
  let subject := Replacer_Replace replacer subject in
  now <- timeNow ;;
  let emailDraft : gmap string value :=
    list_to_map
      [("to", VString email);
       ("from", VString "weather-alerts@example.com");
       ("subject", VString subject);
       ("body", VString body);
       ("timestamp", VString (FormatRFC3339 now))] in
  ret (Done (completed node
    (list_to_map
       [("message", VString ("Weather alert email drafted for " +:+ email));
        ("emailDraft", VMap emailDraft);
        ("emailContent",
         VMap (list_to_map
           [("to", VString email);
            ("subject", VString subject);
            ("body", VString body)]));
        ("emailSent", VBool true)]))).

Definition EndExecutor_Execute (node : Node) : M HandlerReturn :=
  ret (Done (completed node
               {[ "message" := VString "Workflow execution completed" ]})).

(** ** executor.go: the interface and the registry *)

(** The types of the package that implement [NodeExecutor]. *)
Inductive NodeExecutor : Type :=
  | StartExecutor
  | FormExecutor
  | IntegrationExecutor (client : WeatherClient)
  | ConditionExecutor
  | EmailExecutor
  | EndExecutor.

Definition NodeExecutor_Execute (e : NodeExecutor) (node : Node)
  : M HandlerReturn :=
  match e with
  | StartExecutor => StartExecutor_Execute node
  | FormExecutor => FormExecutor_Execute node
  | IntegrationExecutor client => IntegrationExecutor_Execute client node
  | ConditionExecutor => ConditionExecutor_Execute node
  | EmailExecutor => EmailExecutor_Execute node
  | EndExecutor => EndExecutor_Execute node
  end.

Definition NewRegistry (weatherClient : WeatherClient)
  : gmap string NodeExecutor :=
  list_to_map
    [("start", StartExecutor);
     ("form", FormExecutor);
     ("integration", IntegrationExecutor weatherClient);
     ("condition", ConditionExecutor);
     ("email", EmailExecutor);
     ("end", EndExecutor)].

(** ** engine.go *)

Definition maxSteps : Z := 100.

(** The errors [Execute] builds with [fmt.Errorf]. *)
Inductive EngineError : Type :=
  | NoStartNode
  | NoExecutorRegistered (nodeType : string)
  | EdgeTargetNotFound (nodeID : string)
  | ExceededMaximum.

Definition EngineError_Error (e : EngineError) : string :=
  match e with
  | NoStartNode => "workflow has no start node"
  | NoExecutorRegistered nodeType =>
      "no executor registered for node type " +:+ Quote nodeType
  | EdgeTargetNotFound nodeID =>
      "edge target node " +:+ Quote nodeID +:+ " not found"
  | ExceededMaximum =>
      "execution exceeded maximum of " +:+ F64.decimal maxSteps
        +:+ " steps (possible cycle)"
  end.

(** What a call of [Execute] comes back with: [(results, nil)], [(nil, err)],
    or the panic of an executor, which [Execute] does not recover. *)
Inductive ExecuteReturn : Type :=
  | Results (results : ExecutionResults)
  | EngineFailure (err : EngineError)
  | Panic.

Fixpoint findStartNode (nodes : list Node) : option Node :=
  match nodes with
  | [] => None
  | node :: rest =>
      if String.eqb (Node_Type node) "start" then Some node
      else findStartNode rest
  end.

Definition buildEdgeMap (edges : list Edge) : gmap string (list Edge) :=
  foldl (fun m edge =>
           <[Edge_Source edge := default [] (m !! Edge_Source edge) ++ [edge]]> m)
        ∅ edges.

(** The node lookup by ID built at the start of [Execute]; the map holds
    pointers into [wf.Nodes], which no executor writes to (see
    [NodeExecutor_Execute_frame]), so that a pointer and the node it was
    taken at agree throughout the run. *)
Definition buildNodeMap (nodes : list Node) : gmap string Node :=
  foldl (fun m node => <[Node_ID node := node]> m) ∅ nodes.

(** [d.Milliseconds()] *)
Definition Milliseconds (d : Z) : Z := Z.quot d 1000000.

(** The search of a condition node for the edge to follow. *)
Fixpoint followHandle (condResult : string) (edges : list Edge) : string :=
  match edges with
  | [] => EmptyString
  | edge :: rest =>
      if String.eqb (Edge_SourceHandle edge) condResult then Edge_Target edge
      else followHandle condResult rest
  end.

Definition nextNodeID (current : Node) (edges : list Edge)
    (state : ExecutionState) : string :=
  if String.eqb (Node_Type current) "condition" then
    let condResult :=
      assertString (default VNil (lookupVariable state "conditionResult")) in
    followHandle condResult edges
  else
    match edges with
    | edge :: _ => Edge_Target edge
    | [] => EmptyString
    end.

(** The variables of the loop. *)
Record LoopState : Type := {
  current : Node;
  steps : list ExecutionStep;
  stepNum : Z;
}.

(** How one turn of the loop body ends. *)
Inductive BodyExit : Type :=
  | Continue (ls : LoopState)
  | Break (ls : LoopState)
  | Return (r : ExecuteReturn).

Definition newStep (stepNum : Z) (current : Node) (duration : Z)
    (timestamp : Z) (status : string) (output : gmap string value)
    (error : string) : ExecutionStep :=
  {| Step_StepNumber := stepNum;
     Step_NodeID := Node_ID current;
     Step_NodeType := Node_Type current;
     Step_Type := Node_Type current;
     Step_Label := Data_Label (Node_Data current);
     Step_Status := status;
     Step_Duration := Milliseconds duration;
     Step_Output := output;
     Step_Timestamp := FormatRFC3339 timestamp;
     Step_Error := error |}.

Definition newResults (status : string) (startTime : Z)
    (steps : list ExecutionStep) : M ExecutionResults :=
  endTime <- timeNow ;;
  id <- uuidNew ;;
  ret {| ExecutionID := id;
         Status := status;
         StartTime := FormatRFC3339 startTime;
         EndTime := FormatRFC3339 endTime;
         TotalDuration := Milliseconds (endTime - startTime);
         Steps := steps;
         Results_Metadata := ∅ |}.

Section Engine.

Variable registry : gmap string NodeExecutor.

Definition body (edgeMap : gmap string (list Edge))
    (nodeMap : gmap string Node) (startTime : Z) (ls : LoopState)
  : M BodyExit :=
  match registry !! Node_Type (current ls) with
  | None => ret (Return (EngineFailure (NoExecutorRegistered (Node_Type (current ls)))))
  | Some executor =>
      stepStart <- timeNow ;;
      r <- NodeExecutor_Execute executor (current ls) ;;
      match r with
      | Panicked => ret (Return Panic)
      | Failed execErr =>
          stepEnd <- timeNow ;;
          let stepNum := stepNum ls + 1 in
          timestamp <- timeNow ;;
          let step :=
            newStep stepNum (current ls) (stepEnd - stepStart) timestamp
              "error" {[ "message" := VString ("Error: " +:+ execErr) ]}
              execErr in
          results <- newResults "failed" startTime (steps ls ++ [step]) ;;
          ret (Return (Results results))
      | Done result =>
          stepEnd <- timeNow ;;
          let stepNum := stepNum ls + 1 in
          timestamp <- timeNow ;;
          let step :=
            newStep stepNum (current ls) (stepEnd - stepStart) timestamp
              (Result_Status result) (Result_Output result) EmptyString in
          let steps := (steps ls ++ [step]) in
          state <- readState ;;
          let edges := default [] (edgeMap !! Node_ID (current ls)) in
          let next := nextNodeID (current ls) edges state in
          if String.eqb next EmptyString then
            ret (Break {| current := current ls; steps := steps;
                          stepNum := stepNum |})
          else
            match nodeMap !! next with
            | None => ret (Return (EngineFailure (EdgeTargetNotFound next)))
            | Some node =>
                ret (Continue {| current := node; steps := steps;
                                 stepNum := stepNum |})
            end
      end
  end.

(** How the loop [for stepNum < maxSteps] ends.  The recursion is on [fuel];
    [OutOfFuel] is not an outcome of the Go loop, and [Execute] never meets
    it (see [Execute_returns]). *)
Inductive LoopExit : Type :=
  | Exited (ls : LoopState)
  | Returned (r : ExecuteReturn)
  | OutOfFuel.

Fixpoint loop (edgeMap : gmap string (list Edge)) (nodeMap : gmap string Node)
    (startTime : Z) (fuel : nat) (ls : LoopState) : M LoopExit :=
  if stepNum ls <? maxSteps then
    match fuel with
    | O => ret OutOfFuel
    | S fuel' =>
        x <- body edgeMap nodeMap startTime ls ;;
        match x with
        | Continue ls' => loop edgeMap nodeMap startTime fuel' ls'
        | Break ls' => ret (Exited ls')
        | Return r => ret (Returned r)
        end
    end
  else ret (Exited ls).

(** [state.Variables = make(map[string]any)] when it is nil. *)
Definition initVariables : M unit :=
  state <- readState ;;
  match Variables state with
  | None =>
      writeState {| FormData := FormData state; Condition := Condition state;
                    Variables := Some ∅ |}
  | Some _ => ret tt
  end.

Definition Execute : M (option ExecuteReturn) :=
  initVariables ;;;
  startTime <- timeNow ;;
  wf <- readWorkflow ;;
  match findStartNode (Nodes wf) with
  | None => ret (Some (EngineFailure NoStartNode))
  | Some start =>
      let edgeMap := buildEdgeMap (Edges wf) in
      let nodeMap := buildNodeMap (Nodes wf) in
      x <- loop edgeMap nodeMap startTime (Z.to_nat maxSteps)
             {| current := start; steps := []; stepNum := 0 |} ;;
      match x with
      | OutOfFuel => ret None
      | Returned r => ret (Some r)
      | Exited ls =>
          if maxSteps <=? stepNum ls then
            ret (Some (EngineFailure ExceededMaximum))
          else
            results <- newResults "completed" startTime (steps ls) ;;
            ret (Some (Results results))
      end
  end.

End Engine.

End Workflow.

(** ** service.go and workflow.go: the HTTP boundary

    A handler is modelled by what it writes to the [http.ResponseWriter]:
    the status code, and the value it hands to the JSON encoder.  The body
    of the request enters as what [json.NewDecoder(r.Body).Decode(&req)]
    makes of it.  The calls of [slog] are left out. *)

Module Handlers.

(** [ExecuteRequest] of [models.go]; [Request_FormData] is [None] for a nil
    map (no [formData] in the body, or [null]). *)
Record ExecuteRequest : Type := {
  Request_FormData : option (gmap string value);
  Request_Condition : ConditionInput;
}.

Record validationError : Type := {
  field : string;
  kind : string;
}.

Definition validationError_Error (e : validationError) : string :=
  if String.eqb (kind e) "missing" then field e +:+ " is required"
  else field e +:+ " is invalid".

Definition errMissing (field : string) : validationError :=
  {| field := field; kind := "missing" |}.

Definition errInvalid (field : string) : validationError :=
  {| field := field; kind := "invalid" |}.

Definition validOperators : gmap string bool :=
  list_to_map
    [("greater_than", true);
     ("less_than", true);
     ("equals", true);
     ("greater_than_or_equal", true);
     ("less_than_or_equal", true)].

(** The loop of [validateExecuteRequest] over the required fields. *)
Fixpoint requireFields (fields : list string) (formData : gmap string value)
  : option validationError :=
  match fields with
  | [] => None
  | field :: rest =>
      match formData !! field with
      | None => Some (errMissing field)
      | Some (VString s) =>
          if String.eqb s EmptyString then Some (errMissing field)
          else requireFields rest formData
      | Some _ => Some (errMissing field)
      end
  end.

(** [None] is the nil error. *)
Definition validateExecuteRequest (req : ExecuteRequest)
  : option validationError :=
  match Request_FormData req with
  | None => Some (errMissing "formData")
  | Some formData =>
      match requireFields ["name"; "email"; "city"] formData with
      | Some err => Some err
      | None =>
          if negb (default false
                     (validOperators !! Operator (Request_Condition req)))
          then Some (errInvalid "operator")
          else None
      end
  end.

(** [WorkflowRepo.Get]: the two results of the call, [(wf, err)]; a nil
    pointer and a nil error are [None]. *)
Definition WorkflowRepo : Type := string -> option Workflow * option string.

Record Engine : Type := {
  Engine_registry : gmap string NodeExecutor;
}.

Definition NewEngine (registry : gmap string NodeExecutor) : Engine :=
  {| Engine_registry := registry |}.

Record Service : Type := {
  Service_repo : WorkflowRepo;
  Service_engine : Engine;
}.

(** What a handler hands to [json.NewEncoder(w).Encode]. *)
Inductive Body : Type :=
  | BodyMessage (m : gmap string string)
  | BodyWorkflow (wf : Workflow)
  | BodyResults (results : ExecutionResults).

Record Response : Type := {
  StatusCode : Z;
  ResponseBody : Body;
}.

Definition StatusOK : Z := 200.
Definition StatusBadRequest : Z := 400.
Definition StatusNotFound : Z := 404.
Definition StatusInternalServerError : Z := 500.

Definition writeError (status : Z) (message : string) : Response :=
  {| StatusCode := status;
     ResponseBody := BodyMessage {[ "message" := message ]} |}.

Definition HandleGetWorkflow (s : Service) (id : string) : Response :=
  match Service_repo s id with
  | (_, Some err) => writeError StatusInternalServerError "internal server error"
  | (None, None) => writeError StatusNotFound "workflow not found"
  | (Some wf, None) =>
      {| StatusCode := StatusOK; ResponseBody := BodyWorkflow wf |}
  end.

Section Execute.

Context `{GoLib}.

(** The state a request is run on: its form data and condition, and a
    fresh map of variables; a nil map of form data reads as the empty one. *)
Definition newState (req : ExecuteRequest) : ExecutionState :=
  {| FormData := default ∅ (Request_FormData req);
     Condition := Request_Condition req;
     Variables := Some ∅ |}.

(** The store of the run of a request: the definition the repository has
    returned and the state of the request, both fresh objects; the clock
    and the weather service are counted from the start of the request. *)
Definition newStore (wf : Workflow) (req : ExecuteRequest) : Store :=
  {| heapWorkflow := wf; heapState := newState req;
     clockReads := 0; apiCalls := 0 |}.

(** [decoded] is the request [Decode] has filled, [None] when it has
    returned an error.  The answer is [None] when no response is written:
    the call of [Execute] panics. *)
Definition HandleExecuteWorkflow (s : Service) (id : string)
    (decoded : option ExecuteRequest) (env : Env) : option Response :=
  match decoded with
  | None => Some (writeError StatusBadRequest "invalid request body")
  | Some req =>
      match validateExecuteRequest req with
      | Some err => Some (writeError StatusBadRequest (validationError_Error err))
      | None =>
          match Service_repo s id with
          | (_, Some err) =>
              Some (writeError StatusInternalServerError "internal server error")
          | (None, None) => Some (writeError StatusNotFound "workflow not found")
          | (Some wf, None) =>
              match fst (Execute (Engine_registry (Service_engine s)) env
                           (newStore wf req)) with
              | Some (Results results) =>
                  Some {| StatusCode := StatusOK;
                          ResponseBody := BodyResults results |}
              | Some (EngineFailure err) =>
                  Some (writeError StatusInternalServerError
                          "internal server error")
              | Some Panic | None => None
              end
          end
      end
  end.

End Execute.

End Handlers.

(** * The notions the properties are stated with *)

Section Specification.

Context `{GoLib}.

(** The part of the store an executor can change: the variables of the
    state, and the two counters. *)
Record frame (s s' : Store) : Prop := {
  frame_workflow : heapWorkflow s' = heapWorkflow s;
  frame_formData : FormData (heapState s') = FormData (heapState s);
  frame_condition : Condition (heapState s') = Condition (heapState s);
  frame_variables :
    is_Some (Variables (heapState s)) -> is_Some (Variables (heapState s'));
}.

(** The operators the boundary layer accepts ([validOperators] of
    [workflow.go]). *)
Definition validOperators : list string :=
  ["greater_than"; "less_than"; "equals"; "greater_than_or_equal";
   "less_than_or_equal"].

(** An option of an integration node that is a map whose [city] is the
    given one, letter case apart. *)
Definition matchesCity (city : string) (opt : value) : bool :=
  match opt with
  | VMap m =>
      EqualFold
        (match m !! "city" with Some (VString c) => c | _ => EmptyString end)
        city
  | _ => false
  end.

(** One decimal: [math.Round(x*10) / 10]. *)
Definition roundTenth (x : float64) : float64 :=
  F64.div (F64.Round (F64.mul x ten)) ten.

(** The [float64] nearest to the decimal [n / d] (both integers small). *)
Definition decimalLiteral (n d : Z) : float64 :=
  F64.div (F64.of_Z n) (F64.of_Z d).




(** Two weather clients that give the same answers, two executors and two
    registries that differ in such clients only. *)
Definition sameClient (c1 c2 : WeatherClient) : Prop :=
  forall k lat lon, c1 k lat lon = c2 k lat lon.

Definition sameExecutor (e1 e2 : NodeExecutor) : Prop :=
  match e1, e2 with
  | StartExecutor, StartExecutor => True
  | FormExecutor, FormExecutor => True
  | IntegrationExecutor c1, IntegrationExecutor c2 => sameClient c1 c2
  | ConditionExecutor, ConditionExecutor => True
  | EmailExecutor, EmailExecutor => True
  | EndExecutor, EndExecutor => True
  | _, _ => False
  end.

Definition sameRegistry (r1 r2 : gmap string NodeExecutor) : Prop :=
  forall nodeType,
    match r1 !! nodeType, r2 !! nodeType with
    | Some e1, Some e2 => sameExecutor e1 e2
    | None, None => True
    | _, _ => False
    end.





Section OneLoop.

Variable registry : gmap string NodeExecutor.
Variable env : Env.
Variable edgeMap : gmap string (list Edge).
Variable nodeMap : gmap string Node.
Variable startTime : Z.

(** The step the loop records when the executor has failed with [execErr],
    and when it has returned [result]; [s2] is the store the executor left,
    [stepStart] the time read before the call. *)
Definition errorStep (ls : LoopState) (s2 : Store) (stepStart : Z)
    (execErr : string) : ExecutionStep :=
  newStep (stepNum ls + 1) (current ls)
    (clock env (clockReads s2) - stepStart)
    (clock env (S (clockReads s2)))
    "error" {[ "message" := VString ("Error: " +:+ execErr) ]} execErr.

Definition doneStep (ls : LoopState) (s2 : Store) (stepStart : Z)
    (result : StepResult) : ExecutionStep :=
  newStep (stepNum ls + 1) (current ls)
    (clock env (clockReads s2) - stepStart)
    (clock env (S (clockReads s2)))
    (Result_Status result) (Result_Output result) EmptyString.

(** The store after [n] further readings of the clock. *)
Definition ticks (n : nat) (s : Store) : Store :=
  {| heapWorkflow := heapWorkflow s; heapState := heapState s;
     clockReads := (n + clockReads s)%nat; apiCalls := apiCalls s |}.

(** The executor of the current node has returned [r] in store [s2]. *)
Definition dispatched (ls : LoopState) (s : Store) (r : HandlerReturn)
    (s2 : Store) : Prop :=
  exists executor,
    registry !! Node_Type (current ls) = Some executor /\
    NodeExecutor_Execute executor (current ls) env (snd (timeNow env s))
      = (r, s2).

(** The turns the loop has left. *)
Definition turns (ls : LoopState) : nat := Z.to_nat (maxSteps - stepNum ls).

(** [reaches ls s ls' s']: the loop, entered with variables [ls] in store [s],
    comes to its head again with variables [ls'] in store [s']. *)
Inductive reaches : LoopState -> Store -> LoopState -> Store -> Prop :=
  | reaches_here ls s : reaches ls s ls s
  | reaches_next ls s ls1 s1 ls2 s2 :
      stepNum ls < maxSteps ->
      body registry edgeMap nodeMap startTime ls env s = (Continue ls1, s1) ->
      reaches ls1 s1 ls2 s2 ->
      reaches ls s ls2 s2.

(** What holds of the variables of the loop whenever its head is reached. *)
Record loopInvariant (ls0 : LoopState) (s0 : Store) (ls : LoopState)
    (s : Store) : Prop := {
  inv_frame : frame s0 s;
  inv_stepNum : stepNum ls0 <= stepNum ls;
  inv_length :
    Z.of_nat (length (steps ls)) - stepNum ls
      = Z.of_nat (length (steps ls0)) - stepNum ls0;
  inv_prefix : exists added,
    steps ls = steps ls0 ++ added /\
    Forall (fun step => Step_Status step = "completed") added;
}.

End OneLoop.

Section OneRun.

Variable registry : gmap string NodeExecutor.
Variable env : Env.

(** The store in which the loop is entered, and the start time. *)
Definition entry (s0 : Store) : Store :=
  snd (timeNow env (snd (initVariables env s0))).

Definition startTimeOf (s0 : Store) : Z := clock env (clockReads s0).

(** The outgoing edges of a node, in the order of the definition. *)
Definition outgoing (wf : Workflow) (id : string) : list Edge :=
  filter (fun edge => Edge_Source edge = id) (Edges wf).

(** [visits s0 ls s]: the run of [Execute] started in store [s0] comes to
    the head of its loop with variables [ls] in store [s]. *)
Definition visits (s0 : Store) (ls : LoopState) (s : Store) : Prop :=
  exists start,
    findStartNode (Nodes (heapWorkflow s0)) = Some start /\
    reaches registry env
      (buildEdgeMap (Edges (heapWorkflow s0)))
      (buildNodeMap (Nodes (heapWorkflow s0)))
      (startTimeOf s0)
      {| current := start; steps := []; stepNum := 0 |} (entry s0) ls s.

(** What [Execute] does once its loop is over. *)
Definition finish (s0 : Store) (x : LoopExit * Store)
  : option ExecuteReturn * Store :=
  match x with
  | (OutOfFuel, s) => (None, s)
  | (Returned r, s) => (Some r, s)
  | (Exited ls, s) =>
      if maxSteps <=? stepNum ls then
        (Some (EngineFailure ExceededMaximum), s)
      else
        (Some (Results
           {| ExecutionID := uuid env;
              Status := "completed";
              StartTime := FormatRFC3339 (startTimeOf s0);
              EndTime := FormatRFC3339 (clock env (clockReads s));
              TotalDuration :=
                Milliseconds (clock env (clockReads s) - startTimeOf s0);
              Steps := steps ls;
              Results_Metadata := ∅ |}),
         ticks 1 s)
  end.

(** The ways a run fails at the level of the engine, with the error of each
    and the store the run is left in. *)
Inductive engineFault (s0 : Store) : EngineError -> Store -> Prop :=
  | fault_no_start :
      Forall (fun node => Node_Type node <> "start") (Nodes (heapWorkflow s0)) ->
      engineFault s0 NoStartNode (entry s0)
  | fault_unregistered ls s :
      visits s0 ls s ->
      stepNum ls < maxSteps ->
      registry !! Node_Type (current ls) = None ->
      engineFault s0 (NoExecutorRegistered (Node_Type (current ls))) s
  | fault_dangling ls s result s2 next :
      visits s0 ls s ->
      stepNum ls < maxSteps ->
      dispatched registry env ls s (Done result) s2 ->
      next = nextNodeID (current ls)
               (outgoing (heapWorkflow s0) (Node_ID (current ls)))
               (heapState s2) ->
      next <> EmptyString ->
      Forall (fun node => Node_ID node <> next) (Nodes (heapWorkflow s0)) ->
      engineFault s0 (EdgeTargetNotFound next) (ticks 2 s2)
  | fault_exceeded ls s :
      visits s0 ls s ->
      maxSteps <= stepNum ls ->
      engineFault s0 ExceededMaximum s.

End OneRun.

End Specification.

(** * The notions the further properties are stated with *)

(** ** The ways a run ends *)

Section Outcomes.

Context `{GoLib}.

Variable registry : gmap string NodeExecutor.
Variable env : Env.

(** Where the loop ends: at a head it reaches, by the guard, by [break] or
    by [return]. *)
Inductive loopEnd (edgeMap : gmap string (list Edge))
    (nodeMap : gmap string Node) (startTime : Z) (ls : LoopState) (s : Store)
  : LoopExit * Store -> Prop :=
  | end_guard ls1 s1 :
      reaches registry env edgeMap nodeMap startTime ls s ls1 s1 ->
      maxSteps <= stepNum ls1 ->
      loopEnd edgeMap nodeMap startTime ls s (Exited ls1, s1)
  | end_break ls1 s1 ls2 s2 :
      reaches registry env edgeMap nodeMap startTime ls s ls1 s1 ->
      stepNum ls1 < maxSteps ->
      body registry edgeMap nodeMap startTime ls1 env s1 = (Break ls2, s2) ->
      loopEnd edgeMap nodeMap startTime ls s (Exited ls2, s2)
  | end_return ls1 s1 r s2 :
      reaches registry env edgeMap nodeMap startTime ls s ls1 s1 ->
      stepNum ls1 < maxSteps ->
      body registry edgeMap nodeMap startTime ls1 env s1 = (Return r, s2) ->
      loopEnd edgeMap nodeMap startTime ls s (Returned r, s2).

(** The ID of the node the loop goes to after the node of [ls], in the state
    of store [s2]; empty when there is none. *)
Definition successor (s0 : Store) (ls : LoopState) (s2 : Store) : string :=
  nextNodeID (current ls)
    (outgoing (heapWorkflow s0) (Node_ID (current ls))) (heapState s2).

(** The results of a run whose executor failed at [ls], and of a run whose
    last node is that of [ls]; [s] is the store in which the node was
    reached, [s2] the store its executor left. *)
Definition failedResults (s0 : Store) (ls : LoopState) (s s2 : Store)
    (execErr : string) : ExecutionResults :=
  {| ExecutionID := uuid env;
     Status := "failed";
     StartTime := FormatRFC3339 (startTimeOf env s0);
     EndTime := FormatRFC3339 (clock env (S (S (clockReads s2))));
     TotalDuration :=
       Milliseconds (clock env (S (S (clockReads s2))) - startTimeOf env s0);
     Steps := steps ls ++ [errorStep env ls s2 (clock env (clockReads s)) execErr];
     Results_Metadata := ∅ |}.

Definition completedResults (s0 : Store) (ls : LoopState) (s s2 : Store)
    (result : StepResult) : ExecutionResults :=
  {| ExecutionID := uuid env;
     Status := "completed";
     StartTime := FormatRFC3339 (startTimeOf env s0);
     EndTime := FormatRFC3339 (clock env (S (S (clockReads s2))));
     TotalDuration :=
       Milliseconds (clock env (S (S (clockReads s2))) - startTimeOf env s0);
     Steps := steps ls ++ [doneStep env ls s2 (clock env (clockReads s)) result];
     Results_Metadata := ∅ |}.

(** The ways a run of [Execute] ends, with what it returns and the store it
    leaves: one of the engine-level failures; the report of too many steps
    for a run that has ended at its hundredth step; the results of a run
    stopped by the error of an executor; the results of a run that has come
    to a node without successor. *)
Inductive outcome (s0 : Store) : ExecuteReturn -> Store -> Prop :=
  | outcome_fault err s' :
      engineFault registry env s0 err s' ->
      outcome s0 (EngineFailure err) s'
  | outcome_late ls s result s2 :
      visits registry env s0 ls s ->
      stepNum ls + 1 = maxSteps ->
      dispatched registry env ls s (Done result) s2 ->
      successor s0 ls s2 = EmptyString ->
      outcome s0 (EngineFailure ExceededMaximum) (ticks 2 s2)
  | outcome_failed ls s execErr s2 :
      visits registry env s0 ls s ->
      stepNum ls < maxSteps ->
      dispatched registry env ls s (Failed execErr) s2 ->
      outcome s0 (Results (failedResults s0 ls s s2 execErr)) (ticks 3 s2)
  | outcome_completed ls s result s2 :
      visits registry env s0 ls s ->
      stepNum ls + 1 < maxSteps ->
      dispatched registry env ls s (Done result) s2 ->
      successor s0 ls s2 = EmptyString ->
      outcome s0 (Results (completedResults s0 ls s s2 result)) (ticks 3 s2).

End Outcomes.

(** There is an edge from the node of ID [a] to the node of ID [b]. *)
Definition edgeBetween (wf : Workflow) (a b : string) : Prop :=
  exists edge, edge ∈ Edges wf /\ Edge_Source edge = a /\ Edge_Target edge = b.

(** Each ID of the list is joined to the next one by an edge. *)
Definition linked (wf : Workflow) (ids : list string) : Prop :=
  forall i a b, ids !! i = Some a -> ids !! S i = Some b -> edgeBetween wf a b.

(** The step is the record of a node of the definition. *)
Definition recordOf (wf : Workflow) (step : ExecutionStep) : Prop :=
  exists node, node ∈ Nodes wf /\
    Step_NodeID step = Node_ID node /\
    Step_NodeType step = Node_Type node /\
    Step_Type step = Node_Type node /\
    Step_Label step = Data_Label (Node_Data node).

(** The steps are numbered from 1. *)
Definition numbered (steps : list ExecutionStep) : Prop :=
  forall i step, steps !! i = Some step -> Step_StepNumber step = Z.of_nat i + 1.

(** The node type has an integration executor in the registry: its nodes
    are the ones that consult the weather service. *)
Definition callsService (registry : gmap string NodeExecutor)
    (nodeType : string) : bool :=
  match registry !! nodeType with
  | Some (IntegrationExecutor _) => true
  | _ => false
  end.

(** How many of the steps belong to nodes of such a type. *)
Definition lookups (registry : gmap string NodeExecutor)
    (steps : list ExecutionStep) : nat :=
  length (filter (fun step => callsService registry (Step_NodeType step) = true)
            steps).

Section Forms.

Context `{GoLib}.

(** The field of the form holds a string that is not blank. *)
Definition filled (formData : gmap string value) (field : string) : Prop :=
  exists s, formData !! field = Some (VString s) /\ TrimSpace s <> EmptyString.

End Forms.

(** A text without opening brace: no placeholder begins in it. *)
Fixpoint braceFree (s : string) : bool :=
  match s with
  | EmptyString => true
  | String c rest => negb (Ascii.eqb c "{") && braceFree rest
  end.

(** The field of the form holds a string that is not empty. *)
Definition given (formData : gmap string value) (field : string) : Prop :=
  exists s, formData !! field = Some (VString s) /\ s <> EmptyString.

(** The durations of the steps, added up. *)
Definition stepsDuration (steps : list ExecutionStep) : Z :=
  foldr (fun step total => Step_Duration step + total) 0 steps.

(** A clock that does not run backwards. *)
Definition monotone (env : Env) : Prop :=
  forall i j, (i <= j)%nat -> clock env i <= clock env j.

(** ** Decimals and their rounding *)






(** * Concrete library functions, definitions and inputs *)

(** An instance of the library functions on ASCII texts: letters are folded
    by their codes, white space is the blank and the codes 9 to 13, a text
    is quoted between two apostrophes, a time is printed as its number. *)
Definition asciiLower (c : ascii) : ascii :=
  let n := nat_of_ascii c in
  if ((65 <=? n) && (n <=? 90))%nat then ascii_of_nat (n + 32) else c.

Fixpoint asciiFold (s : string) : string :=
  match s with
  | EmptyString => EmptyString
  | String c rest => String (asciiLower c) (asciiFold rest)
  end.

Definition asciiSpace (c : ascii) : bool :=
  let n := nat_of_ascii c in
  ((n =? 32) || ((9 <=? n) && (n <=? 13)))%nat.

Fixpoint asciiTrimLeft (s : string) : string :=
  match s with
  | EmptyString => EmptyString
  | String c rest => if asciiSpace c then asciiTrimLeft rest else s
  end.

Definition asciiLib : GoLib :=
  {| TrimSpace := fun s =>
       String.rev (asciiTrimLeft (String.rev (asciiTrimLeft s)));
     EqualFold := fun a b => String.eqb (asciiFold a) (asciiFold b);
     Quote := fun s => "'" +:+ s +:+ "'";
     FormatRFC3339 := fun t => F64.decimal t |}.

Definition plainNode (id type label : string) (metadata : gmap string value)
  : Node :=
  {| Node_ID := id; Node_Type := type;
     Node_Position := {| Position_X := S754_zero false;
                         Position_Y := S754_zero false |};
     Node_Data := {| Data_Label := label; Data_Description := EmptyString;
                     Data_Metadata := metadata |} |}.

Definition plainEdge (id source target handle : string) : Edge :=
  {| Edge_ID := id; Edge_Source := source; Edge_Target := target;
     Edge_Label := EmptyString; Edge_Type := EmptyString;
     Edge_SourceHandle := handle; Edge_TargetHandle := EmptyString;
     Edge_Animated := false; Edge_Style := ∅; Edge_LabelStyle := ∅ |}.

Definition plainWorkflow (nodes : list Node) (edges : list Edge) : Workflow :=
  {| Workflow_ID := "wf"; Workflow_Name := "wf"; Nodes := nodes;
     Edges := edges; CreatedAt := 0; UpdatedAt := 0 |}.

Definition plainState (formData : gmap string value) (operator : string)
    (threshold : float64) (variables : option (gmap string value))
  : ExecutionState :=
  {| FormData := formData;
     Condition := {| Operator := operator; Threshold := threshold |};
     Variables := variables |}.

Definition freshStore (wf : Workflow) (state : ExecutionState) : Store :=
  {| heapWorkflow := wf; heapState := state; clockReads := 0; apiCalls := 0 |}.

(** A clock that advances by a millisecond and a half at each reading. *)
Definition steadyEnv (id : string) : Env :=
  {| clock := fun k => Z.of_nat k * 1500000; uuid := id |}.


Definition constantClient (answer : LookupResult) : WeatherClient :=
  fun _ _ _ => answer.

(** A chain [n0 -> n1 -> ... ] of [count] nodes of type [start], the last
    one of type [lastType]; [extra] are further edges. *)
Definition chainID (i : nat) : string := "n" +:+ F64.decimal (Z.of_nat i).

Definition chain (count : nat) (lastType : string) (extra : list Edge)
  : Workflow :=
  plainWorkflow
    (map (fun i => plainNode (chainID i) "start" "step" ∅) (seq 0 (count - 1))
       ++ [plainNode (chainID (count - 1)) lastType "last" ∅])
    (map (fun i => plainEdge (chainID i) (chainID i) (chainID (S i)) EmptyString)
         (seq 0 (count - 1))
       ++ extra).

Definition thirty : float64 := F64.of_Z 30.

Definition summary (r : option ExecuteReturn)
  : option (string * nat + EngineError) :=
  match r with
  | Some (Results results) =>
      Some (inl (Status results, length (Steps results)))
  | Some (EngineFailure err) => Some (inr err)
  | _ => None
  end.

Definition trace (r : option ExecuteReturn) : list (Z * string * string) :=
  match r with
  | Some (Results results) =>
      map (fun step =>
             (Step_StepNumber step, Step_NodeType step, Step_Status step))
          (Steps results)
  | _ => []
  end.

(** The definition [start -> form], run on an empty form. *)
Definition twoNodes : Workflow :=
  plainWorkflow
    [plainNode "start" "start" "Start" ∅; plainNode "form" "form" "Input" ∅]
    [plainEdge "e1" "start" "form" EmptyString].


(** The definition of a single node of type [end]: no start node. *)
Definition noStart : Workflow :=
  plainWorkflow [plainNode "end" "end" "End" ∅] [].

Definition emptyState : ExecutionState :=
  plainState ∅ "greater_than" (F64.of_Z 25) (Some ∅).

Definition builtin : gmap string NodeExecutor :=
  NewRegistry (constantClient (Temperature thirty)).

(** The variables of the loop and the store after the first turn of a run. *)
Definition afterStart (wf : Workflow) (start : Node) : LoopState * Store :=
  let s0 := freshStore wf emptyState in
  let init := {| current := start; steps := []; stepNum := 0 |} in
  match @body asciiLib builtin (buildEdgeMap (Edges wf))
          (buildNodeMap (Nodes wf)) (startTimeOf (steadyEnv "run") s0) init
          (steadyEnv "run") (entry (steadyEnv "run") s0) with
  | (Continue ls, s) => (ls, s)
  | (_, s) => (init, s)
  end.

(** The workflow of the tests of the package. *)
Definition weatherAlert : Workflow :=
  plainWorkflow
    [plainNode "start" "start" "Start" ∅;
     plainNode "form" "form" "User Input" ∅;
     plainNode "weather-api" "integration" "Weather API"
       (list_to_map
          [("apiEndpoint", VString "https://api.open-meteo.com/v1/forecast");
           ("options",
            VSlice
              [VMap (list_to_map
                 [("city", VString "Sydney");
                  ("lat", VFloat64 (decimalLiteral (-338688) 10000));
                  ("lon", VFloat64 (decimalLiteral 1512093 10000))])])]);
     plainNode "condition" "condition" "Check Condition" ∅;
     plainNode "email" "email" "Send Alert"
       (list_to_map
          [("emailTemplate",
            VMap (list_to_map
              [("subject", VString "Weather Alert");
               ("body",
                VString "Alert for {{city}}! Temp: {{temperature}}°C!")]))]);
     plainNode "end" "end" "Complete" ∅]
    [plainEdge "e1" "start" "form" EmptyString;
     plainEdge "e2" "form" "weather-api" EmptyString;
     plainEdge "e3" "weather-api" "condition" EmptyString;
     plainEdge "e4" "condition" "email" "true";
     plainEdge "e5" "condition" "end" "false";
     plainEdge "e6" "email" "end" EmptyString].

Definition weatherNode : Node :=
  plainNode "weather-api" "integration" "Weather API"
    (list_to_map
       [("apiEndpoint", VString "https://api.open-meteo.com/v1/forecast");
        ("options",
         VSlice
           [VMap (list_to_map
              [("city", VString "Sydney");
               ("lat", VFloat64 (decimalLiteral (-338688) 10000));
               ("lon", VFloat64 (decimalLiteral 1512093 10000))])])]).

Definition alice (variables : option (gmap string value)) : ExecutionState :=
  plainState
    (list_to_map
       [("name", VString "Alice"); ("email", VString "alice@example.com");
        ("city", VString "sydney")])
    "greater_than" (F64.of_Z 25) variables.

(** ** Inputs of the further properties *)

(** The definition [start -> weather-api], and a registry whose weather
    service is down. *)
Definition lookupOnly : Workflow :=
  plainWorkflow
    [plainNode "start" "start" "Start" ∅; weatherNode]
    [plainEdge "e1" "start" "weather-api" EmptyString].

Definition outOfService : gmap string NodeExecutor :=
  NewRegistry (constantClient (LookupError "service unavailable")).

(** The longest way from a node of [weatherAlert] to the end, in edges. *)
Definition weatherAlertRank (id : string) : nat :=
  if String.eqb id "start" then 5
  else if String.eqb id "form" then 4
  else if String.eqb id "weather-api" then 3
  else if String.eqb id "condition" then 2
  else if String.eqb id "email" then 1
  else 0.

(** A request whose name is a blank. *)
Definition blankName : Handlers.ExecuteRequest :=
  {| Handlers.Request_FormData :=
       Some (list_to_map
               [("name", VString " "); ("email", VString "alice@example.com");
                ("city", VString "Sydney")]);
     Handlers.Request_Condition :=
       {| Operator := "greater_than"; Threshold := F64.of_Z 25 |} |}.


(** * Properties *)

Section Properties.

Context `{GoLib}.

(** ** Running the store monad *)

Lemma bind_run {A B : Type} (c : M A) (k : A -> M B) env s :
  bind c k env s = k (fst (c env s)) env (snd (c env s)).
Proof. unfold bind. destruct (c env s); reflexivity. Qed.

Lemma ret_run {A : Type} (a : A) env s : ret a env s = (a, s).
Proof. reflexivity. Qed.

Ltac run :=
  repeat (rewrite ?bind_run, ?ret_run; cbn [fst snd]).

Lemma setVariable_run k v env s :
  setVariable k v env s =
    match Variables (heapState s) with
    | Some vars =>
        (true,
         {| heapWorkflow := heapWorkflow s;
            heapState := {| FormData := FormData (heapState s);
                            Condition := Condition (heapState s);
                            Variables := Some (<[k := v]> vars) |};
            clockReads := clockReads s; apiCalls := apiCalls s |})
    | None => (false, s)
    end.
Proof.
  unfold setVariable. run. unfold readState; cbn [fst snd].
  destruct (Variables (heapState s)); reflexivity.
Qed.

(** ** What every executor leaves alone *)

Lemma frame_refl s : frame s s.
Proof. split; auto. Qed.

Lemma frame_trans s1 s2 s3 : frame s1 s2 -> frame s2 s3 -> frame s1 s3.
Proof.
  intros [a b c d] [a' b' c' d']; split; try congruence. auto.
Qed.

Lemma timeNow_frame env s : frame s (snd (timeNow env s)).
Proof. split; cbn; auto. Qed.

Lemma setVariable_frame k v env s : frame s (snd (setVariable k v env s)).
Proof.
  rewrite setVariable_run.
  destruct (Variables (heapState s)) eqn:E; split; cbn; auto;
    rewrite ?E; eauto.
Qed.

Lemma GetTemperature_frame client lat lon env s :
  frame s (snd (GetTemperature client lat lon env s)).
Proof. split; cbn; auto. Qed.

Lemma initVariables_frame env s : frame s (snd (initVariables env s)).
Proof.
  unfold initVariables. run. unfold readState; cbn [fst snd].
  destruct (Variables (heapState s)) eqn:E; split; cbn; auto.
Qed.

Lemma initVariables_is_Some env s :
  is_Some (Variables (heapState (snd (initVariables env s)))).
Proof.
  unfold initVariables. run. unfold readState; cbn [fst snd].
  destruct (Variables (heapState s)) eqn:E; cbn; rewrite ?E; eauto.
Qed.

Create HintDb frame.

#[local] Hint Resolve frame_refl timeNow_frame setVariable_frame
  GetTemperature_frame initVariables_frame : frame.

Lemma IntegrationExecutor_Execute_frame client node env s :
  frame s (snd (IntegrationExecutor_Execute client node env s)).
Proof.
  unfold IntegrationExecutor_Execute. run. unfold readState; cbn [fst snd].
  destruct (findCoordinates _ _); run; auto with frame.
  destruct (fst (GetTemperature _ _ _ _ _)) eqn:E; run; auto with frame.
  eapply frame_trans; [apply GetTemperature_frame|].
  match goal with |- context [setVariable ?k ?v ?e ?s0] =>
    pose proof (setVariable_frame k v e s0) as Hf;
    destruct (setVariable k v e s0) as [[] ?] end; exact Hf.
Qed.

Lemma ConditionExecutor_Execute_frame node env s :
  frame s (snd (ConditionExecutor_Execute node env s)).
Proof.
  unfold ConditionExecutor_Execute. run. unfold readState; cbn [fst snd].
  destruct (lookupVariable _ _); run; auto with frame.
  destruct (toFloat64 _) as [t []]; cbn [negb]; run; auto with frame.
  match goal with |- context [setVariable ?k ?v ?e ?s0] =>
    pose proof (setVariable_frame k v e s0) as Hf;
    destruct (setVariable k v e s0) as [[] ?] end; exact Hf.
Qed.

Lemma NodeExecutor_Execute_frame e node env s :
  frame s (snd (NodeExecutor_Execute e node env s)).
Proof.
  destruct e; cbn [NodeExecutor_Execute].
  - apply frame_refl.
  - unfold FormExecutor_Execute. run. unfold readState; cbn [fst snd].
    destruct (checkFields _ _); apply frame_refl.
  - apply IntegrationExecutor_Execute_frame.
  - apply ConditionExecutor_Execute_frame.
  - unfold EmailExecutor_Execute. run. apply timeNow_frame.
  - apply frame_refl.
Qed.

(** ** Executors under [Execute] *)

Lemma setVariable_is_Some k v env s :
  is_Some (Variables (heapState s)) -> fst (setVariable k v env s) = true.
Proof.
  intros [vars E]. rewrite setVariable_run, E. reflexivity.
Qed.

(** An executor panics only on a nil map of variables. *)
Lemma NodeExecutor_Execute_no_panic e node env s :
  is_Some (Variables (heapState s)) ->
  fst (NodeExecutor_Execute e node env s) <> Panicked.
Proof.
  intros Hv. destruct e; cbn [NodeExecutor_Execute]; try discriminate.
  - unfold FormExecutor_Execute. run. destruct (checkFields _ _); discriminate.
  - unfold IntegrationExecutor_Execute. run. unfold readState; cbn [fst snd].
    destruct (findCoordinates _ _); run; try discriminate.
    destruct (fst (GetTemperature _ _ _ _ _)) eqn:E; run; try discriminate.
    rewrite setVariable_is_Some; [discriminate|]. exact Hv.
  - unfold ConditionExecutor_Execute. run. unfold readState; cbn [fst snd].
    destruct (lookupVariable _ _); run; try discriminate.
    destruct (toFloat64 _) as [t []]; cbn [negb]; run; try discriminate.
    rewrite setVariable_is_Some; [discriminate|]. exact Hv.
Qed.

(** Every result an executor returns has status [completed]. *)
Lemma NodeExecutor_Execute_completed e node env s result :
  fst (NodeExecutor_Execute e node env s) = Done result ->
  Result_Status result = "completed".
Proof.
  destruct e; cbn [NodeExecutor_Execute].
  - intros [= <-]; reflexivity.
  - unfold FormExecutor_Execute. run.
    destruct (checkFields _ _); intros [= <-]; reflexivity.
  - unfold IntegrationExecutor_Execute. run. unfold readState; cbn [fst snd].
    destruct (findCoordinates _ _); run; try discriminate.
    destruct (fst (GetTemperature _ _ _ _ _)) eqn:E; run; try discriminate.
    destruct (fst (setVariable _ _ _ _)); intros [= <-]; reflexivity.
  - unfold ConditionExecutor_Execute. run. unfold readState; cbn [fst snd].
    destruct (lookupVariable _ _); run; try discriminate.
    destruct (toFloat64 _) as [t []]; cbn [negb]; run; try discriminate.
    destruct (fst (setVariable _ _ _ _)); intros [= <-]; reflexivity.
  - unfold EmailExecutor_Execute. run. intros [= <-]; reflexivity.
  - intros [= <-]; reflexivity.
Qed.

(** ** The loop of [Execute] *)

Section Run.

Variable registry : gmap string NodeExecutor.
Variable env : Env.
Variable edgeMap : gmap string (list Edge).
Variable nodeMap : gmap string Node.
Variable startTime : Z.

Local Abbreviation runBody := (body registry edgeMap nodeMap startTime).
Local Abbreviation runLoop := (loop registry edgeMap nodeMap startTime).

Lemma newResults_run status steps0 s :
  newResults status startTime steps0 env s =
    ({| ExecutionID := uuid env;
        Status := status;
        StartTime := FormatRFC3339 startTime;
        EndTime := FormatRFC3339 (clock env (clockReads s));
        TotalDuration := Milliseconds (clock env (clockReads s) - startTime);
        Steps := steps0;
        Results_Metadata := ∅ |},
     snd (timeNow env s)).
Proof. reflexivity. Qed.

(** One turn of the loop body, by the outcome of the executor. *)
Lemma body_unregistered ls s :
  registry !! Node_Type (current ls) = None ->
  runBody ls env s =
    (Return (EngineFailure (NoExecutorRegistered (Node_Type (current ls)))), s).
Proof. intros E. unfold body. rewrite E. reflexivity. Qed.

Lemma body_failed ls s executor execErr s2 :
  registry !! Node_Type (current ls) = Some executor ->
  NodeExecutor_Execute executor (current ls) env (snd (timeNow env s))
    = (Failed execErr, s2) ->
  runBody ls env s =
    (Return (Results
       {| ExecutionID := uuid env;
          Status := "failed";
          StartTime := FormatRFC3339 startTime;
          EndTime := FormatRFC3339 (clock env (S (S (clockReads s2))));
          TotalDuration :=
            Milliseconds (clock env (S (S (clockReads s2))) - startTime);
          Steps := steps ls ++ [errorStep env ls s2 (clock env (clockReads s)) execErr];
          Results_Metadata := ∅ |}),
     ticks 3 s2).
Proof.
  intros E Hx. unfold body. rewrite E.
  unfold bind at 1. cbn [timeNow]. unfold bind at 1.
  cbn [timeNow snd] in Hx. rewrite Hx. reflexivity.
Qed.

Lemma body_panicked ls s executor s2 :
  registry !! Node_Type (current ls) = Some executor ->
  NodeExecutor_Execute executor (current ls) env (snd (timeNow env s))
    = (Panicked, s2) ->
  runBody ls env s = (Return Panic, s2).
Proof.
  intros E Hx. unfold body. rewrite E.
  unfold bind at 1. cbn [timeNow]. unfold bind at 1.
  cbn [timeNow snd] in Hx. rewrite Hx. reflexivity.
Qed.

Lemma body_done ls s executor result s2 :
  registry !! Node_Type (current ls) = Some executor ->
  NodeExecutor_Execute executor (current ls) env (snd (timeNow env s))
    = (Done result, s2) ->
  runBody ls env s =
    (let steps' := steps ls ++ [doneStep env ls s2 (clock env (clockReads s)) result] in
     let next :=
       nextNodeID (current ls) (default [] (edgeMap !! Node_ID (current ls)))
         (heapState s2) in
     if String.eqb next EmptyString then
       Break {| current := current ls; steps := steps';
                stepNum := stepNum ls + 1 |}
     else
       match nodeMap !! next with
       | None => Return (EngineFailure (EdgeTargetNotFound next))
       | Some node =>
           Continue {| current := node; steps := steps';
                       stepNum := stepNum ls + 1 |}
       end,
     ticks 2 s2).
Proof.
  intros E Hx. unfold body. rewrite E.
  unfold bind at 1. cbn [timeNow]. unfold bind at 1.
  cbn [timeNow snd] in Hx. rewrite Hx.
  unfold bind, timeNow, readState, ret; cbn.
  destruct (String.eqb _ _); [reflexivity|].
  destruct (nodeMap !! _); reflexivity.
Qed.

Lemma body_cases ls s :
  registry !! Node_Type (current ls) = None \/
  exists r s2, dispatched registry env ls s r s2.
Proof.
  destruct (registry !! Node_Type (current ls)) as [executor|] eqn:E; [right|left; auto].
  destruct (NodeExecutor_Execute executor (current ls) env (snd (timeNow env s)))
    as [r s2] eqn:Hx.
  exists r, s2, executor. auto.
Qed.

Lemma body_frame ls s : frame s (snd (runBody ls env s)).
Proof.
  destruct (body_cases ls s) as [E|(r & s2 & executor & E & Hx)].
  - rewrite body_unregistered by assumption. apply frame_refl.
  - assert (frame s s2) as F.
    { eapply frame_trans; [apply (timeNow_frame env)|].
      pose proof (NodeExecutor_Execute_frame executor (current ls) env
                    (snd (timeNow env s))) as F.
      rewrite Hx in F. exact F. }
    assert (forall n, frame s2 (ticks n s2)) as T by (intros; split; cbn; auto).
    destruct r.
    + rewrite (body_done _ _ _ _ _ E Hx). cbn [snd].
      eapply frame_trans; eauto.
    + rewrite (body_failed _ _ _ _ _ E Hx). cbn [snd].
      eapply frame_trans; eauto.
    + rewrite (body_panicked _ _ _ _ E Hx). exact F.
Qed.

Lemma body_Continue ls s ls' s' :
  runBody ls env s = (Continue ls', s') ->
  exists result s2,
    dispatched registry env ls s (Done result) s2 /\
    s' = ticks 2 s2 /\
    stepNum ls' = stepNum ls + 1 /\
    steps ls' = steps ls ++ [doneStep env ls s2 (clock env (clockReads s)) result] /\
    nodeMap !! nextNodeID (current ls)
                 (default [] (edgeMap !! Node_ID (current ls))) (heapState s2)
      = Some (current ls').
Proof.
  destruct (body_cases ls s) as [E|(r & s2 & executor & E & Hx)].
  - rewrite body_unregistered by assumption. discriminate.
  - destruct r.
    + rewrite (body_done _ _ _ _ _ E Hx). cbn zeta.
      destruct (String.eqb _ _); [discriminate|].
      destruct (nodeMap !! _) eqn:En; [|discriminate].
      intros [= <- <-]. exists result, s2. cbn.
      repeat split; auto. exists executor; auto.
    + rewrite (body_failed _ _ _ _ _ E Hx). discriminate.
    + rewrite (body_panicked _ _ _ _ E Hx). discriminate.
Qed.

Lemma body_Break ls s ls' s' :
  runBody ls env s = (Break ls', s') ->
  exists result s2,
    dispatched registry env ls s (Done result) s2 /\
    s' = ticks 2 s2 /\
    stepNum ls' = stepNum ls + 1 /\
    steps ls' = steps ls ++ [doneStep env ls s2 (clock env (clockReads s)) result] /\
    nextNodeID (current ls)
      (default [] (edgeMap !! Node_ID (current ls))) (heapState s2)
      = EmptyString.
Proof.
  destruct (body_cases ls s) as [E|(r & s2 & executor & E & Hx)].
  - rewrite body_unregistered by assumption. discriminate.
  - destruct r.
    + rewrite (body_done _ _ _ _ _ E Hx). cbn zeta.
      destruct (String.eqb _ _) eqn:Eq.
      * intros [= <- <-]. exists result, s2. cbn.
        repeat split; auto. { exists executor; auto. }
        apply String.eqb_eq. exact Eq.
      * destruct (nodeMap !! _); discriminate.
    + rewrite (body_failed _ _ _ _ _ E Hx). discriminate.
    + rewrite (body_panicked _ _ _ _ E Hx). discriminate.
Qed.

(** *** Fuel *)

Lemma loop_unfold fuel ls :
  runLoop fuel ls =
    if stepNum ls <? maxSteps then
      match fuel with
      | O => ret OutOfFuel
      | S fuel' =>
          x <- runBody ls ;;
          match x with
          | Continue ls' => runLoop fuel' ls'
          | Break ls' => ret (Exited ls')
          | Return r => ret (Returned r)
          end
      end
    else ret (Exited ls).
Proof. destruct fuel; reflexivity. Qed.

Lemma loop_enough_fuel fuel : forall ls s,
  (turns ls <= fuel)%nat ->
  runLoop fuel ls env s = runLoop (turns ls) ls env s.
Proof.
  induction fuel as [|fuel IH]; intros ls s Hf.
  - replace (turns ls) with O by lia. reflexivity.
  - rewrite (loop_unfold (S fuel)), (loop_unfold (turns ls)).
    destruct (stepNum ls <? maxSteps) eqn:G; [|reflexivity].
    apply Z.ltb_lt in G.
    destruct (turns ls) as [|n] eqn:T; [unfold turns in T; lia|].
    rewrite !bind_run.
    destruct (runBody ls env s) as [[ls'| |] s'] eqn:B; cbn [fst snd]; auto.
    apply body_Continue in B as (_ & _ & _ & _ & Hn & _).
    assert (turns ls' = n) as T' by (unfold turns in *; lia).
    rewrite IH by lia. rewrite T'. reflexivity.
Qed.


Lemma loop_turn ls s :
  stepNum ls < maxSteps ->
  runLoop (turns ls) ls env s =
    match runBody ls env s with
    | (Continue ls', s') => runLoop (turns ls') ls' env s'
    | (Break ls', s') => (Exited ls', s')
    | (Return r, s') => (Returned r, s')
    end.
Proof.
  intros G. rewrite loop_unfold.
  apply Z.ltb_lt in G as G'. rewrite G'.
  destruct (turns ls) as [|n] eqn:T; [unfold turns in T; lia|].
  rewrite bind_run.
  destruct (runBody ls env s) as [[ls'| |] s'] eqn:B; cbn [fst snd]; auto.
  apply body_Continue in B as (_ & _ & _ & _ & Hn & _).
  f_equal. unfold turns in *; lia.
Qed.

Lemma loop_exit ls s :
  maxSteps <= stepNum ls -> runLoop (turns ls) ls env s = (Exited ls, s).
Proof.
  intros G. rewrite loop_unfold.
  destruct (stepNum ls <? maxSteps) eqn:G'; [apply Z.ltb_lt in G'; lia|].
  reflexivity.
Qed.

(** *** The configurations a run goes through *)

Lemma loop_reaches ls s ls' s' :
  reaches registry env edgeMap nodeMap startTime ls s ls' s' ->
  runLoop (turns ls) ls env s = runLoop (turns ls') ls' env s'.
Proof.
  induction 1 as [|ls s ls1 s1 ls2 s2 G B _ IH]; [reflexivity|].
  rewrite loop_turn by assumption. rewrite B. exact IH.
Qed.

Lemma reaches_invariant ls0 s0 ls s :
  reaches registry env edgeMap nodeMap startTime ls0 s0 ls s -> loopInvariant ls0 s0 ls s.
Proof.
  induction 1 as [ls s|ls s ls1 s1 ls2 s2 G B _ IH].
  - split; [apply frame_refl|lia|lia|].
    exists []. rewrite app_nil_r. auto.
  - pose proof (body_frame ls s) as F. rewrite B in F. cbn [snd] in F.
    apply body_Continue in B
      as (result & sx & (executor & E & Hx) & -> & Hn & Hs & _).
    destruct IH as [F' N L (added & P & C)].
    split.
    + eapply frame_trans; eauto.
    + lia.
    + rewrite L, Hs, length_app. cbn. lia.
    + exists (doneStep env ls sx (clock env (clockReads s)) result :: added).
      rewrite P, Hs, <- app_assoc. split; [reflexivity|].
      constructor; [|exact C]. cbn.
      eapply NodeExecutor_Execute_completed. rewrite Hx. reflexivity.
Qed.

End Run.

(** ** [Execute] *)

Section Execute.

Variable registry : gmap string NodeExecutor.
Variable env : Env.

Lemma initVariables_clockReads s : clockReads (snd (initVariables env s)) = clockReads s.
Proof.
  unfold initVariables. run. unfold readState; cbn [fst snd].
  destruct (Variables (heapState s)); reflexivity.
Qed.

Lemma entry_frame s0 : frame s0 (entry env s0).
Proof.
  unfold entry. eapply frame_trans; [apply initVariables_frame|apply timeNow_frame].
Qed.

Lemma entry_is_Some s0 : is_Some (Variables (heapState (entry env s0))).
Proof. unfold entry. cbn. apply initVariables_is_Some. Qed.

Lemma Execute_no_start s0 :
  findStartNode (Nodes (heapWorkflow s0)) = None ->
  Execute registry env s0 = (Some (EngineFailure NoStartNode), entry env s0).
Proof.
  intros E. unfold Execute. rewrite bind_run, bind_run.
  rewrite bind_run. unfold readWorkflow. cbn [fst snd].
  assert (heapWorkflow (snd (timeNow env (snd (initVariables env s0))))
          = heapWorkflow s0) as W by apply entry_frame.
  rewrite W, E. reflexivity.
Qed.

Lemma Execute_start s0 start :
  findStartNode (Nodes (heapWorkflow s0)) = Some start ->
  Execute registry env s0 =
    finish env s0
      (loop registry
         (buildEdgeMap (Edges (heapWorkflow s0)))
         (buildNodeMap (Nodes (heapWorkflow s0)))
         (startTimeOf env s0)
         (turns {| current := start; steps := []; stepNum := 0 |})
         {| current := start; steps := []; stepNum := 0 |} env (entry env s0)).
Proof.
  intros E. unfold Execute. rewrite bind_run, bind_run.
  rewrite bind_run. unfold readWorkflow. cbn [fst snd].
  assert (heapWorkflow (snd (timeNow env (snd (initVariables env s0))))
          = heapWorkflow s0) as W by apply entry_frame.
  rewrite W, E. rewrite bind_run.
  assert (fst (timeNow env (snd (initVariables env s0))) = startTimeOf env s0) as T.
  { unfold timeNow. cbn [fst]. rewrite initVariables_clockReads. reflexivity. }
  rewrite T. fold (entry env s0).
  change (Z.to_nat maxSteps)
    with (turns {| current := start; steps := []; stepNum := 0 |}).
  match goal with |- context [finish env s0 ?X] => generalize X end.
  intros [[ls| |] s]; cbn [fst snd finish]; try reflexivity.
  destruct (maxSteps <=? stepNum ls); reflexivity.
Qed.

Lemma Execute_visits s0 ls s :
  visits registry env s0 ls s ->
  Execute registry env s0 =
    finish env s0
      (loop registry
         (buildEdgeMap (Edges (heapWorkflow s0)))
         (buildNodeMap (Nodes (heapWorkflow s0)))
         (startTimeOf env s0) (turns ls) ls env s).
Proof.
  intros (start & E & R). rewrite (Execute_start _ _ E).
  f_equal. apply loop_reaches. exact R.
Qed.


End Execute.

(** ** The two indexes of [Execute] *)

Lemma buildEdgeMap_from (edges : list Edge) (id : string) :
  forall m : gmap string (list Edge),
    default [] (foldl (fun m edge =>
                         <[Edge_Source edge :=
                             default [] (m !! Edge_Source edge) ++ [edge]]> m)
                      m edges !! id)
    = default [] (m !! id)
        ++ filter (fun edge => Edge_Source edge = id) edges.
Proof.
  induction edges as [|edge edges IH]; intros m; cbn [foldl].
  - rewrite app_nil_r. reflexivity.
  - rewrite IH, lookup_insert, filter_cons.
    destruct (decide (Edge_Source edge = id)) as [->|Hne]; cbn.
    + rewrite <- app_assoc. reflexivity.
    + reflexivity.
Qed.

(** The edge index maps a node to its outgoing edges, in the order of the
    definition. *)
Lemma buildEdgeMap_lookup (edges : list Edge) (id : string) :
  default [] (buildEdgeMap edges !! id)
    = filter (fun edge => Edge_Source edge = id) edges.
Proof.
  unfold buildEdgeMap. rewrite buildEdgeMap_from, lookup_empty. reflexivity.
Qed.

Lemma buildNodeMap_from (nodes : list Node) (id : string) :
  forall m : gmap string Node,
    foldl (fun m node => <[Node_ID node := node]> m) m nodes !! id = None <->
    m !! id = None /\ Forall (fun node => Node_ID node <> id) nodes.
Proof.
  induction nodes as [|node nodes IH]; intros m; cbn [foldl].
  - split; [intros E; split; [exact E|constructor]|tauto].
  - rewrite IH, lookup_insert, Forall_cons.
    destruct (decide (Node_ID node = id)) as [->|Hne]; split.
    + intros [[=] _].
    + intros (_ & Hn & _). congruence.
    + tauto.
    + tauto.
Qed.

(** No node of the definition carries an ID the node index misses. *)
Lemma buildNodeMap_None (nodes : list Node) (id : string) :
  buildNodeMap nodes !! id = None <->
  Forall (fun node => Node_ID node <> id) nodes.
Proof.
  unfold buildNodeMap. rewrite buildNodeMap_from, lookup_empty. tauto.
Qed.

Lemma findStartNode_None (nodes : list Node) :
  findStartNode nodes = None <->
  Forall (fun node => Node_Type node <> "start") nodes.
Proof.
  induction nodes as [|node nodes IH]; cbn.
  - split; [constructor|reflexivity].
  - rewrite Forall_cons.
    destruct (String.eqb (Node_Type node) "start") eqn:E.
    + apply String.eqb_eq in E. split; [discriminate|]. tauto.
    + apply String.eqb_neq in E. tauto.
Qed.

(** ** Step-level and engine-level failures *)

Section Failures.

Variable registry : gmap string NodeExecutor.
Variable env : Env.

Lemma visits_invariant s0 ls s :
  visits registry env s0 ls s ->
  frame s0 s /\
  is_Some (Variables (heapState s)) /\
  Z.of_nat (length (steps ls)) = stepNum ls /\
  0 <= stepNum ls /\
  Forall (fun step => Step_Status step = "completed") (steps ls).
Proof.
  intros (start & _ & R). apply reaches_invariant in R as [F N L (added & P & C)].
  cbn in *. split; [|split; [|split; [|split]]].
  - eapply frame_trans; [apply entry_frame|exact F].
  - apply F. apply entry_is_Some.
  - lia.
  - exact N.
  - rewrite P. exact C.
Qed.

(** C1. When the executor of a visited node returns an error, [Execute]
    returns results and no error; the overall status is [failed]; the trace
    is the steps executed so far, all [completed], followed by one step of
    status [error] whose output message carries the text of the error; and
    nothing runs after the failing executor. *)
Theorem C1_step_failure_is_returned_as_data s0 ls s execErr s2 :
  visits registry env s0 ls s ->
  stepNum ls < maxSteps ->
  dispatched registry env ls s (Failed execErr) s2 ->
  exists results step s',
    Execute registry env s0 = (Some (Results results), s') /\
    Status results = "failed" /\
    Steps results = steps ls ++ [step] /\
    Forall (fun st => Step_Status st = "completed") (steps ls) /\
    Step_Status step = "error" /\
    Step_Error step = execErr /\
    Step_Output step = {[ "message" := VString ("Error: " +:+ execErr) ]} /\
    Step_NodeID step = Node_ID (current ls) /\
    Step_StepNumber step = stepNum ls + 1 /\
    Z.of_nat (length (Steps results)) = stepNum ls + 1 /\
    heapState s' = heapState s2 /\
    apiCalls s' = apiCalls s2.
Proof.
  intros V G (executor & E & Hx).
  destruct (visits_invariant _ _ _ V) as (_ & _ & L & _ & C).
  rewrite (Execute_visits _ _ _ _ _ V), loop_turn by assumption.
  rewrite (body_failed _ _ _ _ _ _ _ _ _ _ E Hx). cbn [finish].
  eexists _, _, _. split; [reflexivity|]. cbn.
  repeat split; auto.
  rewrite length_app. cbn. lia.
Qed.


End Failures.

(** ** What a run leaves alone *)

Section Frame.

Variable registry : gmap string NodeExecutor.
Variable env : Env.

Lemma loop_frame edgeMap nodeMap startTime fuel : forall ls s,
  frame s (snd (loop registry edgeMap nodeMap startTime fuel ls env s)).
Proof.
  induction fuel as [|fuel IH]; intros ls s; rewrite loop_unfold;
    destruct (stepNum ls <? maxSteps); try apply frame_refl.
  rewrite bind_run.
  pose proof (body_frame registry env edgeMap nodeMap startTime ls s) as F.
  destruct (body registry edgeMap nodeMap startTime ls env s) as [[ls'|ls'|r] s'];
    cbn [fst snd] in *; try exact F.
  eapply frame_trans; [exact F|apply IH].
Qed.

Lemma Execute_frame s0 : frame s0 (snd (Execute registry env s0)).
Proof.
  destruct (findStartNode (Nodes (heapWorkflow s0))) as [start|] eqn:E.
  - rewrite (Execute_start _ _ _ _ E).
    match goal with |- context [finish env s0 (loop ?a ?b ?c ?d ?f ?l ?e ?s)] =>
      pose proof (loop_frame b c d f l s) as F;
      revert F; generalize (loop a b c d f l e s) end.
    intros [[ls| |] s'] F; cbn [fst snd finish] in *.
    + destruct (maxSteps <=? stepNum ls); cbn [snd].
      * eapply frame_trans; [apply entry_frame|exact F].
      * eapply frame_trans; [apply entry_frame|].
        eapply frame_trans; [exact F|]. split; cbn; auto.
    + eapply frame_trans; [apply entry_frame|exact F].
    + eapply frame_trans; [apply entry_frame|exact F].
  - rewrite Execute_no_start by assumption. apply entry_frame.
Qed.

(** Under [Execute] no executor panics: the variables are initialised before
    the first dispatch and stay so. *)
Lemma loop_no_panic edgeMap nodeMap startTime fuel : forall ls s,
  is_Some (Variables (heapState s)) ->
  fst (loop registry edgeMap nodeMap startTime fuel ls env s) <> Returned Panic.
Proof.
  induction fuel as [|fuel IH]; intros ls s Hv; rewrite loop_unfold;
    destruct (stepNum ls <? maxSteps); try discriminate.
  rewrite bind_run.
  pose proof (body_frame registry env edgeMap nodeMap startTime ls s) as F.
  destruct (body_cases registry env ls s) as [E|(r & s2 & executor & E & Hx)].
  - rewrite body_unregistered by assumption. discriminate.
  - destruct r.
    + rewrite (body_done _ _ _ _ _ _ _ _ _ _ E Hx) in *. cbn zeta in *.
      destruct (String.eqb _ _); [discriminate|].
      destruct (nodeMap !! _); [|discriminate].
      cbn [fst snd] in *. apply IH. apply F. exact Hv.
    + rewrite (body_failed _ _ _ _ _ _ _ _ _ _ E Hx). discriminate.
    + exfalso.
      apply (NodeExecutor_Execute_no_panic executor (current ls) env
               (snd (timeNow env s))); [exact Hv|].
      rewrite Hx. reflexivity.
Qed.

Lemma Execute_no_panic s0 : fst (Execute registry env s0) <> Some Panic.
Proof.
  destruct (findStartNode (Nodes (heapWorkflow s0))) as [start|] eqn:E.
  - rewrite (Execute_start _ _ _ _ E).
    match goal with |- context [finish env s0 (loop ?a ?b ?c ?d ?f ?l ?e ?s)] =>
      pose proof (loop_no_panic b c d f l s (entry_is_Some env s0)) as F;
      revert F; generalize (loop a b c d f l e s) end.
    intros [[ls| |] s'] F; cbn [fst snd finish] in *.
    + destruct (maxSteps <=? stepNum ls); discriminate.
    + congruence.
    + discriminate.
  - rewrite Execute_no_start by assumption. discriminate.
Qed.

(** C9. A run leaves the workflow definition as it was: the nodes (IDs,
    types, labels, metadata) and the edges (IDs, sources, targets, handles)
    behind the pointer [wf] are the same after [Execute], and after every
    call of an executor, which receives its node by value and shares only
    the metadata map with the definition.  Of the execution state the form
    data and the condition are left alone too: a run writes to the variables
    of its state only. *)
Theorem C9_definition_is_left_unchanged (e : NodeExecutor) (node : Node)
    (s : Store) :
  let afterExecutor := snd (NodeExecutor_Execute e node env s) in
  let afterExecute := snd (Execute registry env s) in
  (heapWorkflow afterExecutor = heapWorkflow s /\
   FormData (heapState afterExecutor) = FormData (heapState s) /\
   Condition (heapState afterExecutor) = Condition (heapState s)) /\
  (heapWorkflow afterExecute = heapWorkflow s /\
   Nodes (heapWorkflow afterExecute) = Nodes (heapWorkflow s) /\
   Edges (heapWorkflow afterExecute) = Edges (heapWorkflow s) /\
   FormData (heapState afterExecute) = FormData (heapState s) /\
   Condition (heapState afterExecute) = Condition (heapState s)).
Proof.
  cbn zeta.
  destruct (NodeExecutor_Execute_frame e node env s) as [W F C _].
  destruct (Execute_frame s) as [W' F' C' _].
  rewrite W'. repeat split; assumption.
Qed.

End Frame.

(** ** The executors *)

Lemma evaluateCondition_unrecognized temperature operator threshold :
  ~ In operator validOperators ->
  evaluateCondition temperature operator threshold = false.
Proof.
  intros Hn. unfold evaluateCondition.
  repeat match goal with
  | |- context [String.eqb operator ?k] =>
      destruct (String.eqb_spec operator k) as [->|_];
      [exfalso; apply Hn; cbn; tauto|]
  end.
  reflexivity.
Qed.

(** C8. With an operator outside the five recognized ones the condition
    executor does not fail: the condition evaluates to false, the branch
    token [false] is stored in the variables, and the step is [completed]. *)
Theorem C8_unrecognized_operator_is_false (node : Node) (env : Env)
    (s : Store) (tempRaw : value) (temperature : float64) :
  lookupVariable (heapState s) "temperature" = Some tempRaw ->
  toFloat64 tempRaw = (temperature, true) ->
  ~ In (Operator (Condition (heapState s))) validOperators ->
  (forall t th,
     evaluateCondition t (Operator (Condition (heapState s))) th = false) /\
  exists result s',
    ConditionExecutor_Execute node env s = (Done result, s') /\
    Result_Status result = "completed" /\
    Result_Error result = EmptyString /\
    Result_Output result !! "conditionMet" = Some (VBool false) /\
    lookupVariable (heapState s') "conditionResult" = Some (VString "false").
Proof.
  intros Ht Hf Hop. split.
  { intros t th. apply evaluateCondition_unrecognized. exact Hop. }
  unfold ConditionExecutor_Execute. rewrite bind_run.
  unfold readState. cbn [fst snd]. rewrite Ht, Hf. cbn [negb].
  rewrite !evaluateCondition_unrecognized by exact Hop.
  rewrite bind_run, setVariable_run.
  unfold lookupVariable in Ht.
  destruct (Variables (heapState s)) as [vars|] eqn:Ev; [|discriminate].
  cbn [fst snd branchToken].
  eexists _, _. split; [reflexivity|]. cbn [Result_Status Result_Error completed].
  repeat split.
  unfold lookupVariable. cbn. apply lookup_insert_eq.
Qed.

(** C10. The email executor never fails: for every node and every store it
    returns a result of status [completed] and no error.  A form value that
    is absent or not a string is replaced by the empty string, a template
    that is absent or malformed by empty texts, and a temperature that is
    absent or not a [float64] is printed as [0.0]. *)
Theorem C10_email_executor_always_completes (node : Node) (env : Env)
    (s : Store) :
  let field k :=
    match FormData (heapState s) !! k with
    | Some (VString v) => v
    | _ => EmptyString
    end in
  let temperature :=
    match lookupVariable (heapState s) "temperature" with
    | Some (VFloat64 f) => F64.format_f1 f
    | _ => "0.0"
    end in
  let template k :=
    match Data_Metadata (Node_Data node) !! "emailTemplate" with
    | Some (VMap tmpl) =>
        match tmpl !! k with Some (VString v) => v | _ => EmptyString end
    | _ => EmptyString
    end in
  let substitute :=
    Replacer_Replace
      [("{{name}}", field "name"); ("{{city}}", field "city");
       ("{{temperature}}", temperature)] in
  exists result,
    EmailExecutor_Execute node env s = (Done result, snd (timeNow env s)) /\
    Result_Status result = "completed" /\
    Result_Error result = EmptyString /\
    Result_Output result !! "message"
      = Some (VString ("Weather alert email drafted for " +:+ field "email")) /\
    Result_Output result !! "emailContent"
      = Some (VMap (list_to_map
          [("to", VString (field "email"));
           ("subject", VString (substitute (template "subject")));
           ("body", VString (substitute (template "body")))])).
Proof.
  cbn zeta. unfold EmailExecutor_Execute. rewrite bind_run.
  unfold readState. cbn [fst snd]. rewrite bind_run.
  eexists. split; [reflexivity|].
  cbn [Result_Status Result_Error completed].
  split; [reflexivity|]. split; [reflexivity|].
  assert (forall m k,
            assertString (index m k)
            = match m !! k with Some (VString v) => v | _ => EmptyString end)
    as Hs.
  { intros m k. unfold index. destruct (m !! k) as [[]|]; reflexivity. }
  assert (F64.format_f1
            (assertFloat64 (default VNil (lookupVariable (heapState s) "temperature")))
          = match lookupVariable (heapState s) "temperature" with
            | Some (VFloat64 f) => F64.format_f1 f
            | _ => "0.0"
            end) as Ht.
  { destruct (lookupVariable _ _) as [[]|]; reflexivity. }
  assert (forall k,
            assertString
              (index (assertMap (index (Data_Metadata (Node_Data node))
                                   "emailTemplate")) k)
            = match Data_Metadata (Node_Data node) !! "emailTemplate" with
              | Some (VMap tmpl) =>
                  match tmpl !! k with
                  | Some (VString v) => v
                  | _ => EmptyString
                  end
              | _ => EmptyString
              end) as Hm.
  { intros k. unfold index at 2.
    destruct (_ !! "emailTemplate") as [[]|]; cbn [default assertMap];
      rewrite ?Hs, ?lookup_empty; reflexivity. }
  unfold emailReplacer. rewrite Ht, !Hm, !Hs.
  split; reflexivity.
Qed.

Lemma findCoordinates_find (city : string) (options : list value) :
  findCoordinates city options =
    match List.find (matchesCity city) options with
    | Some (VMap m) =>
        match toFloat64 (index m "lat"), toFloat64 (index m "lon") with
        | (lat, true), (lon, true) => CoordinatesFound lat lon
        | _, _ => CoordinatesInvalid
        end
    | _ => CoordinatesNotFound
    end.
Proof.
  induction options as [|opt rest IH]; [reflexivity|].
  cbn [findCoordinates List.find].
  destruct opt; try exact IH. cbn [matchesCity].
  replace (assertString (index m "city"))
    with (match m !! "city" with Some (VString c) => c | _ => EmptyString end)
    by (unfold index; destruct (m !! "city") as [[]|]; reflexivity).
  destruct (EqualFold _ city); [|exact IH].
  destruct (toFloat64 (index m "lat")) as [lat []],
           (toFloat64 (index m "lon")) as [lon []]; reflexivity.
Qed.

(** C7, on a state whose map of variables is not nil (as [Execute] makes
    it before the first dispatch).  The integration executor looks for the first option of the node whose city
    is the city of the form, letter case apart.  Without such an option, or
    when the latitude or longitude of that option is not a number, it fails.
    Otherwise it asks the weather client for the temperature at that latitude
    and longitude; a failure of the client is returned wrapped; a temperature
    is stored in the variables under [temperature] and the step is
    [completed]. *)
Theorem C7_integration_executor (client : WeatherClient) (node : Node)
    (env : Env) (s : Store) (vars : gmap string value) :
  Variables (heapState s) = Some vars ->
  let city :=
    match FormData (heapState s) !! "city" with
    | Some (VString c) => c
    | _ => EmptyString
    end in
  let options :=
    match Data_Metadata (Node_Data node) !! "options" with
    | Some (VSlice l) => l
    | _ => []
    end in
  let called :=
    {| heapWorkflow := heapWorkflow s; heapState := heapState s;
       clockReads := clockReads s; apiCalls := S (apiCalls s) |} in
  match List.find (matchesCity city) options with
  | None =>
      IntegrationExecutor_Execute client node env s
        = (Failed ("city " +:+ Quote city +:+ " not found in available options"), s)
  | Some opt =>
      match toFloat64 (index (assertMap opt) "lat"),
            toFloat64 (index (assertMap opt) "lon") with
      | (lat, true), (lon, true) =>
          match client (apiCalls s) lat lon with
          | LookupError msg =>
              IntegrationExecutor_Execute client node env s
                = (Failed ("weather API error: " +:+ msg), called)
          | Temperature t =>
              exists result s',
                IntegrationExecutor_Execute client node env s
                  = (Done result, s') /\
                Result_Status result = "completed" /\
                Result_Output result !! "temperature" = Some (VFloat64 t) /\
                Variables (heapState s')
                  = Some (<["temperature" := VFloat64 t]> vars) /\
                apiCalls s' = S (apiCalls s)
          end
      | _, _ =>
          IntegrationExecutor_Execute client node env s
            = (Failed ("invalid coordinates for city " +:+ Quote city), s)
      end
  end.
Proof.
  intros Ev. cbn zeta.
  unfold IntegrationExecutor_Execute. rewrite bind_run.
  unfold readState. cbn [fst snd].
  replace (assertString (index (FormData (heapState s)) "city"))
    with (match FormData (heapState s) !! "city" with
          | Some (VString c) => c
          | _ => EmptyString
          end)
    by (unfold index; destruct (_ !! "city") as [[]|]; reflexivity).
  replace (assertSlice (index (Data_Metadata (Node_Data node)) "options"))
    with (match Data_Metadata (Node_Data node) !! "options" with
          | Some (VSlice l) => l
          | _ => []
          end)
    by (unfold index; destruct (_ !! "options") as [[]|]; reflexivity).
  rewrite findCoordinates_find.
  destruct (List.find _ _) as [opt|] eqn:Ef; [|reflexivity].
  apply find_some in Ef as [_ Hm].
  destruct opt; try discriminate Hm. cbn [assertMap].
  destruct (toFloat64 (index m "lat")) as [lat []],
           (toFloat64 (index m "lon")) as [lon []]; try reflexivity.
  rewrite bind_run. unfold GetTemperature. cbn [fst snd].
  destruct (client (apiCalls s) lat lon) as [t|msg]; [|reflexivity].
  rewrite bind_run, setVariable_run. cbn [heapState]. rewrite Ev.
  cbn [fst snd]. eexists _, _. split; [reflexivity|].
  cbn. repeat split.
Qed.

(** ** Rounding to one decimal *)

Lemma iter_pos_invariant {A : Type} (P : A -> Prop) (f : A -> A) :
  (forall x, P x -> P (f x)) ->
  forall n x, P x -> P (@SpecFloat.iter_pos A f n x).
Proof.
  intros Hf. induction n as [n IH|n IH|]; intros x Hx; cbn; auto.
Qed.

Lemma shr_1_nonneg mrs : 0 <= shr_m mrs -> 0 <= shr_m (shr_1 mrs).
Proof.
  destruct mrs as [[|[p|p|]|p] r s]; cbn; intros; lia.
Qed.

Lemma shr_nonneg mrs e n : 0 <= shr_m mrs -> 0 <= shr_m (fst (shr mrs e n)).
Proof.
  intros Hm. destruct n; cbn; auto.
  apply (iter_pos_invariant (fun x => 0 <= shr_m x)); auto using shr_1_nonneg.
Qed.

Lemma shr_fexp_nonneg prec emax m e l :
  0 <= m -> 0 <= shr_m (fst (shr_fexp prec emax m e l)).
Proof.
  intros Hm. unfold shr_fexp. apply shr_nonneg.
  destruct l as [|[]]; exact Hm.
Qed.

Lemma round_nearest_even_nonneg m l : 0 <= m -> 0 <= round_nearest_even m l.
Proof.
  intros Hm. destruct l as [|[]]; cbn; try lia.
  destruct (Z.even m); lia.
Qed.

(** Rounding a non-negative mantissa never yields a NaN. *)
Lemma binary_round_aux_not_nan prec emax sx mx ex lx :
  0 <= mx -> binary_round_aux prec emax sx mx ex lx <> S754_nan.
Proof.
  intros Hm. unfold binary_round_aux.
  pose proof (shr_fexp_nonneg prec emax mx ex lx Hm) as H1.
  destruct (shr_fexp prec emax mx ex lx) as [mrs' e']. cbn [fst] in H1.
  pose proof (shr_fexp_nonneg prec emax
                (round_nearest_even (shr_m mrs') (loc_of_shr_record mrs'))
                e' loc_Exact (round_nearest_even_nonneg _ _ H1)) as H2.
  destruct (shr_fexp prec emax _ e' loc_Exact) as [mrs'' e'']. cbn [fst] in H2.
  destruct (shr_m mrs'') as [|m|m]; try discriminate; [|lia].
  destruct (e'' <=? emax - prec); discriminate.
Qed.

Lemma binary_normalize_not_nan prec emax m e szero :
  binary_normalize prec emax m e szero <> S754_nan.
Proof.
  destruct m as [|m|m]; cbn; try discriminate; unfold binary_round;
    destruct (shl_align _ _ _) as [mz ez];
    apply binary_round_aux_not_nan; lia.
Qed.

Lemma F64_mul_ten_not_nan x : x <> S754_nan -> F64.mul x ten <> S754_nan.
Proof.
  intros Hx. destruct x; try congruence; try discriminate.
  change ten with (S754_finite false 5629499534213120 (-49)).
  unfold F64.mul, SFmul. apply binary_round_aux_not_nan. lia.
Qed.

Lemma F64_Round_not_nan x : x <> S754_nan -> F64.Round x <> S754_nan.
Proof.
  intros Hx. destruct x; try congruence; try discriminate.
  unfold F64.Round. destruct (0 <=? e); [discriminate|].
  apply binary_normalize_not_nan.
Qed.

Lemma F64_div_ten_not_nan x : x <> S754_nan -> F64.div x ten <> S754_nan.
Proof.
  intros Hx. destruct x; try congruence; try discriminate.
  change ten with (S754_finite false 5629499534213120 (-49)).
  unfold F64.div, SFdiv.
  destruct (SFdiv_core_binary _ _ _ _ _ _) as [[mz ez] lz] eqn:E.
  apply binary_round_aux_not_nan.
  unfold SFdiv_core_binary in E.
  match type of E with
  | (let '(q, r) := Z.div_eucl ?a ?b in _) = _ =>
      pose proof (Z_div_mod a b eq_refl) as D;
      assert (0 <= a) as Ha;
      [|destruct (Z.div_eucl a b) as [q r]; injection E as <- _ _; nia]
  end.
  cbn zeta.
  match goal with |- 0 <= match ?z with _ => _ end =>
    destruct z eqn:Ez; try lia end.
  apply Z.shiftl_nonneg. lia.
Qed.

Lemma roundTenth_not_nan x : x <> S754_nan -> roundTenth x <> S754_nan.
Proof.
  intros Hx. unfold roundTenth.
  auto using F64_div_ten_not_nan, F64_Round_not_nan, F64_mul_ten_not_nan.
Qed.

Lemma SFcompare_not_nan x y :
  x <> S754_nan -> y <> S754_nan -> exists c, SFcompare x y = Some c.
Proof.
  intros Hx Hy. destruct x, y; try congruence; cbn; eauto.
Qed.

Lemma SFcompare_swap x y :
  SFcompare y x = option_map CompOpp (SFcompare x y).
Proof.
  destruct x as [sx|sx| |sx mx ex], y as [sy|sy| |sy my ey];
    try reflexivity; cbn;
    try (destruct sx; reflexivity); try (destruct sy; reflexivity);
    try (destruct sx, sy; reflexivity).
  destruct sx, sy; try reflexivity; f_equal;
    rewrite (Z.compare_antisym ey ex);
    destruct (ey ?= ex); cbn; try reflexivity;
    rewrite (Pos.compare_cont_antisym mx my Eq); cbn;
    rewrite ?CompOpp_involutive; reflexivity.
Qed.

(** ** The rounding of the condition on decimals *)















(** ** Two runs of one definition *)

Lemma sameRegistry_refl r : sameRegistry r r.
Proof.
  intros ty. destruct (r !! ty) as [[]|]; cbn; auto. intros k lat lon; auto.
Qed.


Section TwoRuns.

Variables registry1 registry2 : gmap string NodeExecutor.
Variables env1 env2 : Env.
Hypothesis registries : sameRegistry registry1 registry2.








End TwoRuns.

Section Identifier.

Variable registry : gmap string NodeExecutor.
Variable env : Env.



End Identifier.


(** ** Choosing the next node, and the end of a run *)

Lemma followHandle_find (condResult : string) (edges : list Edge) :
  followHandle condResult edges =
    match List.find (fun edge => String.eqb (Edge_SourceHandle edge) condResult)
            edges with
    | Some edge => Edge_Target edge
    | None => EmptyString
    end.
Proof.
  induction edges as [|edge rest IH]; cbn; [reflexivity|].
  destruct (String.eqb _ _); [reflexivity|exact IH].
Qed.

(** A node that is not a condition is left by its first outgoing edge. *)
Lemma nextNodeID_plain (node : Node) (edges : list Edge) (state : ExecutionState) :
  Node_Type node <> "condition" ->
  nextNodeID node edges state =
    match edges with
    | edge :: _ => Edge_Target edge
    | [] => EmptyString
    end.
Proof.
  intros Hn. unfold nextNodeID.
  apply String.eqb_neq in Hn. rewrite Hn. reflexivity.
Qed.

(** The condition executor stores the branch token the engine reads. *)
Lemma ConditionExecutor_Execute_token node env s result s2 :
  ConditionExecutor_Execute node env s = (Done result, s2) ->
  exists met : bool,
    Result_Output result !! "conditionMet" = Some (VBool met) /\
    lookupVariable (heapState s2) "conditionResult"
      = Some (VString (branchToken met)).
Proof.
  unfold ConditionExecutor_Execute. rewrite bind_run.
  unfold readState. cbn [fst snd].
  destruct (lookupVariable _ _); [|discriminate].
  destruct (toFloat64 _) as [t []]; cbn [negb]; [|discriminate].
  rewrite bind_run, setVariable_run.
  destruct (Variables (heapState s)) as [vars|]; cbn [fst snd]; [|discriminate].
  intros [= <- <-].
  eexists. split; [reflexivity|].
  unfold lookupVariable. cbn. apply lookup_insert_eq.
Qed.

(** A condition node is left by the first outgoing edge whose handle is the
    branch token just stored. *)
Lemma nextNodeID_condition (node : Node) (edges : list Edge) env s result s2 :
  Node_Type node = "condition" ->
  ConditionExecutor_Execute node env s = (Done result, s2) ->
  exists met : bool,
    Result_Output result !! "conditionMet" = Some (VBool met) /\
    nextNodeID node edges (heapState s2) =
      match List.find (fun edge =>
                         String.eqb (Edge_SourceHandle edge) (branchToken met))
              edges with
      | Some edge => Edge_Target edge
      | None => EmptyString
      end.
Proof.
  intros Ht Hx.
  destruct (ConditionExecutor_Execute_token _ _ _ _ _ Hx) as (met & Hm & Hv).
  exists met. split; [exact Hm|].
  unfold nextNodeID. rewrite Ht. cbn [String.eqb Ascii.eqb Bool.eqb andb].
  rewrite Hv. cbn [default assertString]. apply followHandle_find.
Qed.

Section Terminal.

Variable registry : gmap string NodeExecutor.
Variable env : Env.

(** A run whose current node has no next node ends there: with results of
    status [completed] when fewer than [maxSteps] steps have been taken, and
    with the error of the step bound when this was step number [maxSteps]. *)
Lemma Execute_terminal s0 ls s result s2 :
  visits registry env s0 ls s ->
  stepNum ls < maxSteps ->
  dispatched registry env ls s (Done result) s2 ->
  nextNodeID (current ls) (outgoing (heapWorkflow s0) (Node_ID (current ls)))
    (heapState s2) = EmptyString ->
  Execute registry env s0 =
    if stepNum ls + 1 <? maxSteps then
      (Some (Results
         {| ExecutionID := uuid env;
            Status := "completed";
            StartTime := FormatRFC3339 (startTimeOf env s0);
            EndTime := FormatRFC3339 (clock env (S (S (clockReads s2))));
            TotalDuration :=
              Milliseconds (clock env (S (S (clockReads s2)))
                            - startTimeOf env s0);
            Steps := steps ls
                       ++ [doneStep env ls s2 (clock env (clockReads s)) result];
            Results_Metadata := ∅ |}),
       ticks 3 s2)
    else (Some (EngineFailure ExceededMaximum), ticks 2 s2).
Proof.
  intros V G (executor & E & Hx) Hnext.
  rewrite (Execute_visits _ _ _ _ _ V), loop_turn by assumption.
  rewrite (body_done _ _ _ _ _ _ _ _ _ _ E Hx). cbn zeta.
  rewrite buildEdgeMap_lookup.
  fold (outgoing (heapWorkflow s0) (Node_ID (current ls))).
  rewrite Hnext. cbn [String.eqb finish stepNum steps].
  destruct (stepNum ls + 1 <? maxSteps) eqn:B.
  - apply Z.ltb_lt in B.
    destruct (maxSteps <=? stepNum ls + 1) eqn:B'; [apply Z.leb_le in B'; lia|].
    reflexivity.
  - apply Z.ltb_ge in B. apply Z.leb_le in B. rewrite B. reflexivity.
Qed.

End Terminal.

End Properties.

(** * More properties of the engine *)

Section Outcome.

Context `{GoLib}.

Variable registry : gmap string NodeExecutor.
Variable env : Env.

Lemma reaches_step edgeMap nodeMap startTime ls s ls1 s1 ls2 s2 :
  reaches registry env edgeMap nodeMap startTime ls s ls1 s1 ->
  stepNum ls1 < maxSteps ->
  body registry edgeMap nodeMap startTime ls1 env s1 = (Continue ls2, s2) ->
  reaches registry env edgeMap nodeMap startTime ls s ls2 s2.
Proof.
  induction 1 as [ls s|ls s la sa lb sb G B _ IH]; intros G' B'.
  - eapply reaches_next; eauto. apply reaches_here.
  - eapply reaches_next; eauto.
Qed.

Lemma loop_loopEnd edgeMap nodeMap startTime n : forall ls s,
  turns ls = n ->
  loopEnd registry env edgeMap nodeMap startTime ls s
    (loop registry edgeMap nodeMap startTime (turns ls) ls env s).
Proof.
  induction n as [|n IH]; intros ls s T.
  - rewrite (loop_exit registry env edgeMap nodeMap startTime ls s) by (unfold turns in T; lia).
    apply end_guard; [apply reaches_here|unfold turns in T; lia].
  - assert (stepNum ls < maxSteps) as G by (unfold turns in T; lia).
    rewrite (loop_turn registry env edgeMap nodeMap startTime ls s G).
    destruct (body registry edgeMap nodeMap startTime ls env s)
      as [[ls'|ls'|r] s'] eqn:B.
    + assert (turns ls' = n) as T'.
      { apply body_Continue in B as (_ & _ & _ & _ & Hn & _).
        unfold turns in *. lia. }
      destruct (IH ls' s' T') as [la sa R Ga|la sa lb sb R Ga Bb|la sa r sb R Ga Bb].
      * apply end_guard; [eapply reaches_next; eauto|exact Ga].
      * eapply end_break; [eapply reaches_next; eauto|exact Ga|exact Bb].
      * eapply end_return; [eapply reaches_next; eauto|exact Ga|exact Bb].
    + eapply end_break; [apply reaches_here|exact G|exact B].
    + eapply end_return; [apply reaches_here|exact G|exact B].
Qed.


Lemma successor_edgeMap s0 ls s2 :
  nextNodeID (current ls)
    (default [] (buildEdgeMap (Edges (heapWorkflow s0)) !! Node_ID (current ls)))
    (heapState s2)
  = successor s0 ls s2.
Proof. rewrite buildEdgeMap_lookup. reflexivity. Qed.

(** Every run of [Execute] ends in one of the ways of [outcome]. *)
Lemma Execute_outcome s0 :
  exists r s',
    Execute registry env s0 = (Some r, s') /\ outcome registry env s0 r s'.
Proof.
  destruct (findStartNode (Nodes (heapWorkflow s0))) as [start|] eqn:E.
  - pose proof (Execute_no_panic registry env s0) as NP.
    rewrite (Execute_start registry env s0 start E) in NP |- *.
    pose proof (loop_loopEnd
                  (buildEdgeMap (Edges (heapWorkflow s0)))
                  (buildNodeMap (Nodes (heapWorkflow s0)))
                  (startTimeOf env s0) _
                  {| current := start; steps := []; stepNum := 0 |}
                  (entry env s0) eq_refl) as L.
    revert NP L.
    match goal with |- context [finish env s0 ?X] => generalize X end.
    intros x NP L.
    destruct L as [ls s R G|ls s ls2 s2 R G B|ls s r s2 R G B].
    + cbn [finish]. apply Z.leb_le in G as G'. rewrite G'.
      eexists _, _. split; [reflexivity|].
      apply outcome_fault, fault_exceeded with (ls := ls); [exists start; auto|exact G].
    + apply body_Break in B as (result & sx & D & -> & Hn & Hs & Hnext).
      rewrite successor_edgeMap in Hnext.
      cbn [finish]. destruct (maxSteps <=? stepNum ls2) eqn:G'.
      * apply Z.leb_le in G'. eexists _, _. split; [reflexivity|].
        apply outcome_late with (ls := ls) (s := s) (result := result);
          [exists start; auto|lia|exact D|exact Hnext].
      * apply Z.leb_gt in G'. eexists _, _. split; [reflexivity|].
        rewrite Hs.
        apply (outcome_completed registry env s0 ls s result sx);
          [exists start; auto|lia|exact D|exact Hnext].
    + assert (visits registry env s0 ls s) as V by (exists start; auto).
      cbn [finish] in NP |- *.
      destruct (body_cases registry env ls s) as [Er|(o & sx & executor & Er & Hx)].
      * rewrite (body_unregistered registry env _ _ _ ls s Er) in B.
        injection B as <- <-. eexists _, _. split; [reflexivity|].
        apply outcome_fault, fault_unregistered; assumption.
      * destruct o as [result|execErr|].
        -- rewrite (body_done registry env _ _ _ ls s executor _ _ Er Hx) in B.
           cbn zeta in B. rewrite successor_edgeMap in B.
           destruct (String.eqb _ _) eqn:Eq; [discriminate|].
           destruct (buildNodeMap _ !! _) eqn:En; [discriminate|].
           injection B as <- <-. eexists _, _. split; [reflexivity|].
           apply outcome_fault.
           apply fault_dangling with (ls := ls) (s := s) (result := result);
             [exact V|exact G|exists executor; auto|reflexivity| |].
           ++ apply String.eqb_neq. exact Eq.
           ++ apply buildNodeMap_None. exact En.
        -- rewrite (body_failed registry env _ _ _ ls s executor _ _ Er Hx) in B.
           injection B as <- <-. eexists _, _. split; [reflexivity|].
           apply (outcome_failed registry env s0 ls s execErr sx);
             [exact V|exact G|exists executor; auto].
        -- rewrite (body_panicked registry env _ _ _ ls s executor _ Er Hx) in B.
           injection B as <- <-. cbn in NP. congruence.
  - rewrite (Execute_no_start registry env s0 E).
    eexists _, _. split; [reflexivity|].
    apply outcome_fault, fault_no_start. apply findStartNode_None. exact E.
Qed.

End Outcome.

(** ** What holds at every node a run visits *)

Lemma buildNodeMap_from_last (nodes : list Node) (id : string) :
  forall m : gmap string Node,
    foldl (fun m node => <[Node_ID node := node]> m) m nodes !! id
    = match last (filter (fun node => Node_ID node = id) nodes) with
      | Some node => Some node
      | None => m !! id
      end.
Proof.
  induction nodes as [|node nodes IH]; intros m; cbn [foldl].
  - reflexivity.
  - rewrite IH, filter_cons.
    destruct (decide (Node_ID node = id)) as [E|E].
    + rewrite last_cons. rewrite lookup_insert. rewrite decide_True by exact E.
      destruct (last _); reflexivity.
    + rewrite lookup_insert. rewrite decide_False by exact E. reflexivity.
Qed.

(** The node index maps an ID to the last node of the definition that carries
    it. *)
Lemma buildNodeMap_last (nodes : list Node) (id : string) :
  buildNodeMap nodes !! id = last (filter (fun node => Node_ID node = id) nodes).
Proof.
  unfold buildNodeMap. rewrite buildNodeMap_from_last, lookup_empty.
  destruct (last _); reflexivity.
Qed.

Lemma buildNodeMap_Some (nodes : list Node) (id : string) (node : Node) :
  buildNodeMap nodes !! id = Some node -> node ∈ nodes /\ Node_ID node = id.
Proof.
  rewrite buildNodeMap_last. intros L.
  apply last_Some in L as (l & L).
  assert (node ∈ filter (fun node => Node_ID node = id) nodes) as I.
  { rewrite L. apply elem_of_app. right. apply list_elem_of_singleton. reflexivity. }
  apply list_elem_of_filter in I. tauto.
Qed.

Lemma findStartNode_Some (nodes : list Node) (start : Node) :
  findStartNode nodes = Some start ->
  exists before after,
    nodes = before ++ start :: after /\
    Node_Type start = "start" /\
    Forall (fun node => Node_Type node <> "start") before.
Proof.
  induction nodes as [|node nodes IH]; cbn; [discriminate|].
  destruct (String.eqb (Node_Type node) "start") eqn:E.
  - intros [= <-]. apply String.eqb_eq in E. exists [], nodes. auto.
  - intros F. apply String.eqb_neq in E.
    destruct (IH F) as (before & after & -> & T & N).
    exists (node :: before), after. auto.
Qed.

Lemma followHandle_target (condResult : string) (edges : list Edge) :
  followHandle condResult edges <> EmptyString ->
  exists edge, edge ∈ edges /\
    Edge_SourceHandle edge = condResult /\
    Edge_Target edge = followHandle condResult edges.
Proof.
  induction edges as [|edge edges IH]; cbn; [congruence|].
  destruct (String.eqb (Edge_SourceHandle edge) condResult) eqn:E.
  - apply String.eqb_eq in E. intros _. exists edge. split; [apply list_elem_of_here|auto].
  - intros N. destruct (IH N) as (e & I & Hh & Ht). exists e. split; [apply list_elem_of_further; exact I|auto].
Qed.

(** The node a turn goes to is the target of an edge that leaves the
    current node. *)
Lemma nextNodeID_target (node : Node) (edges : list Edge) (state : ExecutionState) :
  nextNodeID node edges state <> EmptyString ->
  exists edge, edge ∈ edges /\ Edge_Target edge = nextNodeID node edges state.
Proof.
  unfold nextNodeID. destruct (String.eqb (Node_Type node) "condition").
  - intros N. destruct (followHandle_target _ _ N) as (e & I & _ & T). eauto.
  - destruct edges as [|edge edges]; [congruence|].
    intros _. exists edge. split; [apply list_elem_of_here|reflexivity].
Qed.

Lemma successor_edge s0 ls s2 :
  successor s0 ls s2 <> EmptyString ->
  edgeBetween (heapWorkflow s0) (Node_ID (current ls)) (successor s0 ls s2).
Proof.
  intros N. unfold successor in *.
  destruct (nextNodeID_target _ _ _ N) as (edge & I & T).
  apply list_elem_of_filter in I as (S & I).
  exists edge. auto.
Qed.

Section Visits.

Context `{GoLib}.

Variable registry : gmap string NodeExecutor.
Variable env : Env.

(** A turn of the loop that goes on to another node. *)
Lemma body_Continue_next edgeMap nodeMap startTime ls s ls' s' :
  body registry edgeMap nodeMap startTime ls env s = (Continue ls', s') ->
  exists result s2 node,
    dispatched registry env ls s (Done result) s2 /\
    s' = ticks 2 s2 /\
    ls' = {| current := node;
             steps := steps ls ++ [doneStep env ls s2 (clock env (clockReads s)) result];
             stepNum := stepNum ls + 1 |} /\
    nextNodeID (current ls)
      (default [] (edgeMap !! Node_ID (current ls))) (heapState s2)
      <> EmptyString /\
    nodeMap !! nextNodeID (current ls)
                 (default [] (edgeMap !! Node_ID (current ls))) (heapState s2)
      = Some node.
Proof.
  destruct (body_cases registry env ls s) as [E|(r & s2 & executor & E & Hx)].
  - rewrite (body_unregistered registry env _ _ _ ls s E). discriminate.
  - destruct r.
    + rewrite (body_done registry env _ _ _ ls s executor _ _ E Hx). cbn zeta.
      destruct (String.eqb _ _) eqn:Eq; [discriminate|].
      destruct (nodeMap !! _) eqn:En; [|discriminate].
      intros [= <- <-]. exists result, s2, n.
      split; [exists executor; auto|]. split; [reflexivity|].
      split; [reflexivity|]. split; [apply String.eqb_neq; exact Eq|exact En].
    + rewrite (body_failed registry env _ _ _ ls s executor _ _ E Hx). discriminate.
    + rewrite (body_panicked registry env _ _ _ ls s executor _ E Hx). discriminate.
Qed.

Lemma reaches_ind_from edgeMap nodeMap startTime
    (P : LoopState -> Store -> Prop) l0 s0 :
  P l0 s0 ->
  (forall ls s ls' s',
     reaches registry env edgeMap nodeMap startTime l0 s0 ls s -> P ls s ->
     stepNum ls < maxSteps ->
     body registry edgeMap nodeMap startTime ls env s = (Continue ls', s') ->
     P ls' s') ->
  forall ls s,
    reaches registry env edgeMap nodeMap startTime l0 s0 ls s -> P ls s.
Proof.
  intros P0 Pstep ls s R.
  assert (forall la sa,
            reaches registry env edgeMap nodeMap startTime la sa ls s ->
            reaches registry env edgeMap nodeMap startTime l0 s0 la sa ->
            P la sa -> P ls s) as A.
  { clear R. intros la sa R.
    induction R as [ls s|ls s l1 s1 l2 s2 G B _ IH]; intros R0 Pa; [exact Pa|].
    apply IH.
    - eapply reaches_step; eauto.
    - eapply Pstep; eauto. }
  apply (A l0 s0 R); [apply reaches_here|exact P0].
Qed.

(** Induction on the nodes a run visits. *)
Lemma visits_ind s0 (P : LoopState -> Store -> Prop) :
  (forall start,
     findStartNode (Nodes (heapWorkflow s0)) = Some start ->
     P {| current := start; steps := []; stepNum := 0 |} (entry env s0)) ->
  (forall ls s result s2 node,
     visits registry env s0 ls s -> P ls s ->
     stepNum ls < maxSteps ->
     dispatched registry env ls s (Done result) s2 ->
     successor s0 ls s2 <> EmptyString ->
     buildNodeMap (Nodes (heapWorkflow s0)) !! successor s0 ls s2 = Some node ->
     P {| current := node;
          steps := steps ls ++ [doneStep env ls s2 (clock env (clockReads s)) result];
          stepNum := stepNum ls + 1 |} (ticks 2 s2)) ->
  forall ls s, visits registry env s0 ls s -> P ls s.
Proof.
  intros Hstart Hstep ls s (start & E & R).
  revert ls s R. apply reaches_ind_from; [apply Hstart; exact E|].
  intros ls s ls' s' R Pls G B.
  apply body_Continue_next in B as (result & s2 & node & D & -> & -> & N & L).
  rewrite successor_edgeMap in N, L.
  apply Hstep; auto. exists start. auto.
Qed.

End Visits.

Lemma numbered_snoc (l : list ExecutionStep) (step : ExecutionStep) :
  numbered l ->
  Step_StepNumber step = Z.of_nat (length l) + 1 ->
  numbered (l ++ [step]).
Proof.
  intros N E i x Hi.
  destruct (decide (i < length l)%nat) as [Lt|Ge].
  - rewrite lookup_app_l in Hi by exact Lt. apply N. exact Hi.
  - apply lookup_lt_Some in Hi as Hlen. rewrite length_app in Hlen. cbn in Hlen.
    assert (i = length l) as -> by lia.
    rewrite list_lookup_middle in Hi by reflexivity.
    injection Hi as <-. exact E.
Qed.

Lemma linked_snoc (wf : Workflow) (ids : list string) (a b : string) :
  linked wf (ids ++ [a]) ->
  edgeBetween wf a b ->
  linked wf ((ids ++ [a]) ++ [b]).
Proof.
  intros L E i x y Hi HSi.
  destruct (decide (S i < length (ids ++ [a]))%nat) as [Lt|Ge].
  - rewrite lookup_app_l in Hi by lia. rewrite lookup_app_l in HSi by lia.
    eapply L; eauto.
  - apply lookup_lt_Some in HSi as Hlen.
    rewrite !length_app in Hlen. rewrite length_app in Ge. cbn in Hlen, Ge.
    assert (i = length ids) as -> by lia.
    rewrite <- app_assoc in Hi. cbn in Hi.
    rewrite list_lookup_middle in Hi by reflexivity.
    rewrite lookup_app_r in HSi by (rewrite length_app; cbn; lia).
    rewrite length_app in HSi. cbn in HSi.
    replace (S (length ids) - (length ids + 1))%nat with O in HSi by lia.
    cbn in HSi. congruence.
Qed.

Lemma linked_singleton (wf : Workflow) (a : string) : linked wf [a].
Proof. intros i x y Hi HSi. destruct i; discriminate. Qed.

Section Invariants.

Context `{GoLib}.

Variable registry : gmap string NodeExecutor.
Variable env : Env.

(** The steps taken so far are numbered from 1, and [stepNum] counts them. *)
Lemma visits_numbered s0 ls s :
  visits registry env s0 ls s ->
  Z.of_nat (length (steps ls)) = stepNum ls /\ numbered (steps ls).
Proof.
  revert ls s. apply visits_ind.
  - intros start _. cbn. split; [reflexivity|]. intros i step Hi. discriminate.
  - intros ls s result s2 node _ (L & N) _ _ _ _. cbn. split.
    + rewrite length_app. cbn. lia.
    + apply numbered_snoc; [exact N|]. cbn. lia.
Qed.

(** The steps taken so far and the current node are nodes of the
    definition, which begin with the start node and follow its edges. *)
Lemma visits_path s0 ls s :
  visits registry env s0 ls s ->
  current ls ∈ Nodes (heapWorkflow s0) /\
  Forall (recordOf (heapWorkflow s0)) (steps ls) /\
  linked (heapWorkflow s0)
    (map Step_NodeID (steps ls) ++ [Node_ID (current ls)]) /\
  head (map Step_NodeID (steps ls) ++ [Node_ID (current ls)])
    = Node_ID <$> findStartNode (Nodes (heapWorkflow s0)).
Proof.
  revert ls s. apply visits_ind.
  - intros start E. cbn. rewrite E. cbn.
    apply findStartNode_Some in E as (before & after & E & _).
    split; [|split; [constructor|split; [apply linked_singleton|reflexivity]]].
    rewrite E. apply elem_of_app. right. apply list_elem_of_here.
  - intros ls s result s2 node _ (I & R & L & Hd) _ _ N E. cbn.
    apply buildNodeMap_Some in E as (In & E).
    split; [exact In|]. split; [|split].
    + apply Forall_app. split; [exact R|]. constructor; [|constructor].
      exists (current ls). cbn. auto.
    + rewrite map_app. cbn. rewrite E.
      apply linked_snoc; [exact L|]. apply successor_edge. exact N.
    + rewrite map_app. cbn. rewrite <- Hd.
      destruct (map Step_NodeID (steps ls)); reflexivity.
Qed.

(** The results of a run: those of a run stopped by an error, or those of
    a run that has come to a node without successor. *)
Lemma Execute_Results s0 r s' :
  Execute registry env s0 = (Some (Results r), s') ->
  exists ls s s2,
    visits registry env s0 ls s /\ stepNum ls < maxSteps /\ s' = ticks 3 s2 /\
    ((exists execErr,
        dispatched registry env ls s (Failed execErr) s2 /\
        r = failedResults env s0 ls s s2 execErr) \/
     (exists result,
        stepNum ls + 1 < maxSteps /\
        dispatched registry env ls s (Done result) s2 /\
        successor s0 ls s2 = EmptyString /\
        r = completedResults env s0 ls s s2 result)).
Proof.
  intros E. destruct (Execute_outcome registry env s0) as (r' & s'' & E' & O).
  rewrite E in E'. injection E' as <- <-.
  inversion O as [| |ls s execErr s2 V G D|ls s result s2 V G D N]; subst.
  - exists ls, s, s2. split; [exact V|]. split; [exact G|]. split; [reflexivity|].
    left. eauto.
  - exists ls, s, s2. split; [exact V|]. split; [lia|]. split; [reflexivity|].
    right. exists result. auto.
Qed.

End Invariants.

(** ** The results of a run *)

Section Results.

Context `{GoLib}.

Variable registry : gmap string NodeExecutor.
Variable env : Env.

(** X1. Whatever the definition, the registry, the clock, the weather
    service and the state (a nil map of variables included), [Execute]
    returns, and what it returns is results or an error of the engine:
    the loop ends within its bound also on a cyclic definition, and no
    executor panics under [Execute]. *)
Theorem Execute_returns_results_or_an_error s0 :
  exists s',
    (exists results,
       Execute registry env s0 = (Some (Results results), s') /\
       (Status results = "completed" \/ Status results = "failed")) \/
    (exists err, Execute registry env s0 = (Some (EngineFailure err), s')).
Proof.
  destruct (Execute_outcome registry env s0) as (r & s' & E & O).
  exists s'. destruct O.
  - right. eauto.
  - right. eauto.
  - left. eexists. split; [exact E|]. right. reflexivity.
  - left. eexists. split; [exact E|]. left. reflexivity.
Qed.

(** X2. Results consist of a non-empty list of steps of which all but the
    last have status [completed]; the status of the results is [completed]
    with a last step of status [completed] and no error text, or [failed]
    with a last step of status [error] whose output is the message made of
    its error text.  The ID is the one drawn for the run. *)
Theorem Execute_results_shape s0 results s' :
  Execute registry env s0 = (Some (Results results), s') ->
  ExecutionID results = uuid env /\
  exists init last,
    Steps results = init ++ [last] /\
    Forall (fun step => Step_Status step = "completed") init /\
    ((Status results = "completed" /\
      Step_Status last = "completed" /\
      Step_Error last = EmptyString) \/
     (Status results = "failed" /\
      Step_Status last = "error" /\
      Step_Output last
        = {[ "message" := VString ("Error: " +:+ Step_Error last) ]})).
Proof.
  intros E.
  apply Execute_Results in E
    as (ls & s & s2 & V & G & -> & [(execErr & D & ->)|(result & G' & D & N & ->)]).
  - split; [reflexivity|].
    destruct (visits_invariant _ _ _ _ _ V) as (_ & _ & _ & _ & C).
    eexists _, _. split; [reflexivity|]. split; [exact C|].
    right. cbn. auto.
  - split; [reflexivity|].
    destruct (visits_invariant _ _ _ _ _ V) as (_ & _ & _ & _ & C).
    eexists _, _. split; [reflexivity|]. split; [exact C|].
    left. cbn. split; [reflexivity|]. split; [|reflexivity].
    destruct D as (executor & _ & Hx).
    eapply NodeExecutor_Execute_completed. rewrite Hx. reflexivity.
Qed.

(** X3. The steps of the results are numbered 1, 2, ... in the order of the
    list; there are at most 100 of them, and fewer than 100 in results of
    status [completed]. *)
Theorem Execute_numbers_the_steps s0 results s' :
  Execute registry env s0 = (Some (Results results), s') ->
  numbered (Steps results) /\
  (0 < length (Steps results) <= 100)%nat /\
  (Status results = "completed" -> (length (Steps results) < 100)%nat).
Proof.
  intros E.
  apply Execute_Results in E
    as (ls & s & s2 & V & G & -> & [(execErr & D & ->)|(result & G' & D & N & ->)]);
    destruct (visits_numbered _ _ _ _ _ V) as (L & Nb);
    destruct (visits_invariant _ _ _ _ _ V) as (_ & _ & _ & P & _);
    cbn [Steps Status failedResults completedResults];
    rewrite length_app; cbn [length]; unfold maxSteps in *.
  - split; [|split; [lia|discriminate]].
    apply numbered_snoc; [exact Nb|]. cbn. lia.
  - split; [|split; [lia|intros _; lia]].
    apply numbered_snoc; [exact Nb|]. cbn. lia.
Qed.

(** X4. The steps of the results follow the definition: the first is the
    first node of type [start], each step is joined to the next by an edge
    of the definition, and each records the ID, the type and the label of
    a node of the definition. *)
Theorem Execute_trace_is_a_path s0 results s' :
  Execute registry env s0 = (Some (Results results), s') ->
  head (map Step_NodeID (Steps results))
    = Node_ID <$> findStartNode (Nodes (heapWorkflow s0)) /\
  linked (heapWorkflow s0) (map Step_NodeID (Steps results)) /\
  Forall (recordOf (heapWorkflow s0)) (Steps results).
Proof.
  intros E.
  apply Execute_Results in E
    as (ls & s & s2 & V & G & -> & [(execErr & D & ->)|(result & G' & D & N & ->)]);
    destruct (visits_path _ _ _ _ _ V) as (I & R & L & Hd);
    cbn [Steps failedResults completedResults]; rewrite map_app.
  - split; [exact Hd|]. split; [exact L|].
    apply Forall_app. split; [exact R|]. constructor; [|constructor].
    exists (current ls). cbn. auto.
  - split; [exact Hd|]. split; [exact L|].
    apply Forall_app. split; [exact R|]. constructor; [|constructor].
    exists (current ls). cbn. auto.
Qed.

(** X5. Every error of the engine has its cause in the definition or the
    registry: it is one of the four engine-level failures, or it is the
    report of too many steps for a run that has come to a node without
    successor at its hundredth step. *)
Theorem Execute_error_has_a_cause s0 err s' :
  Execute registry env s0 = (Some (EngineFailure err), s') ->
  engineFault registry env s0 err s' \/
  (err = ExceededMaximum /\
   exists ls s result s2,
     visits registry env s0 ls s /\
     stepNum ls + 1 = maxSteps /\
     dispatched registry env ls s (Done result) s2 /\
     successor s0 ls s2 = EmptyString /\
     s' = ticks 2 s2).
Proof.
  intros E. destruct (Execute_outcome registry env s0) as (r' & s'' & E' & O).
  rewrite E in E'. injection E' as <- <-.
  inversion O as [err' sx F|ls s result s2 V G D N| |]; subst.
  - left. exact F.
  - right. split; [reflexivity|]. exists ls, s, result, s2. auto.
Qed.

End Results.

(** ** Definitions on which the engine cannot fail *)

Section WellFormed.

Context `{GoLib}.

Variable registry : gmap string NodeExecutor.
Variable env : Env.
Variable s0 : Store.
Variable rank : string -> nat.
Variable start : Node.

Hypothesis has_start :
  findStartNode (Nodes (heapWorkflow s0)) = Some start.
Hypothesis registered :
  forall node, node ∈ Nodes (heapWorkflow s0) ->
    is_Some (registry !! Node_Type node).
Hypothesis targets :
  forall edge, edge ∈ Edges (heapWorkflow s0) ->
    exists node, node ∈ Nodes (heapWorkflow s0) /\ Node_ID node = Edge_Target edge.
Hypothesis descends :
  forall edge, edge ∈ Edges (heapWorkflow s0) ->
    (rank (Edge_Target edge) < rank (Edge_Source edge))%nat.

Lemma visits_rank ls s :
  visits registry env s0 ls s ->
  Z.of_nat (rank (Node_ID (current ls))) + stepNum ls
    <= Z.of_nat (rank (Node_ID start)).
Proof.
  revert ls s. apply visits_ind.
  - intros start' E. rewrite has_start in E. injection E as <-. cbn. lia.
  - intros ls s result s2 node _ IH _ _ N E. cbn.
    apply buildNodeMap_Some in E as (_ & ->).
    destruct (successor_edge _ _ _ N) as (edge & I & Es & Et).
    specialize (descends edge I). rewrite Es, Et in descends. lia.
Qed.

(** X6. On a definition that has a start node, whose nodes all have a
    registered type, whose edges all lead to a node, and whose edges descend
    along a rank that is below 99 at the start node (no cycle, and no path
    of 99 edges), [Execute] returns results and never an error. *)
Theorem Execute_on_a_well_formed_definition :
  (rank (Node_ID start) < 99)%nat ->
  exists results s', Execute registry env s0 = (Some (Results results), s').
Proof.
  intros depth.
  destruct (Execute_outcome registry env s0) as (r & s' & E & O).
  destruct O as [err s' F|ls s result s2 V G D N|ls s execErr s2 V G D
                |ls s result s2 V G D N].
  - exfalso.
    destruct F as [Hn|ls s V G Er|ls s result s2 next V G D -> Hne Hn|ls s V G].
    + apply findStartNode_None in Hn. congruence.
    + destruct (visits_path _ _ _ _ _ V) as (I & _).
      destruct (registered _ I) as [executor Ex]. congruence.
    + fold (successor s0 ls s2) in Hne, Hn.
      destruct (successor_edge _ _ _ Hne) as (edge & I & _ & T).
      destruct (targets edge I) as (node & In & Eid).
      rewrite Forall_forall in Hn. apply (Hn node In). congruence.
    + pose proof (visits_rank _ _ V). unfold maxSteps in G. lia.
  - exfalso. pose proof (visits_rank _ _ V). unfold maxSteps in G. lia.
  - eauto.
  - eauto.
Qed.

End WellFormed.

(** ** What a run does to the state and to the weather service *)

Section Resources.

Context `{GoLib}.

Ltac run :=
  repeat (rewrite ?bind_run, ?ret_run; cbn [fst snd]).

Lemma setVariable_lookup k v env s k' :
  k' <> k ->
  lookupVariable (heapState (snd (setVariable k v env s))) k'
    = lookupVariable (heapState s) k'.
Proof.
  intros N. rewrite setVariable_run. unfold lookupVariable.
  destruct (Variables (heapState s)) eqn:E; cbn; rewrite ?E; [|reflexivity].
  apply lookup_insert_ne. congruence.
Qed.

Lemma setVariable_apiCalls k v env s :
  apiCalls (snd (setVariable k v env s)) = apiCalls s.
Proof.
  rewrite setVariable_run. destruct (Variables (heapState s)); reflexivity.
Qed.

(** An executor writes no variable other than [temperature] and
    [conditionResult]. *)
Lemma NodeExecutor_Execute_variables e node env s k :
  k <> "temperature" -> k <> "conditionResult" ->
  lookupVariable (heapState (snd (NodeExecutor_Execute e node env s))) k
    = lookupVariable (heapState s) k.
Proof.
  intros Nt Nc. destruct e; cbn [NodeExecutor_Execute]; try reflexivity.
  - unfold FormExecutor_Execute. run. destruct (checkFields _ _); reflexivity.
  - unfold IntegrationExecutor_Execute. run. unfold readState; cbn [fst snd].
    destruct (findCoordinates _ _); run; try reflexivity.
    destruct (fst (GetTemperature _ _ _ _ _)) eqn:E; run; try reflexivity.
    match goal with |- context [setVariable ?k ?v ?e ?s0] =>
      pose proof (setVariable_lookup k v e s0 _ Nt) as Hf;
      destruct (setVariable k v e s0) as [[] ?] end; exact Hf.
  - unfold ConditionExecutor_Execute. run. unfold readState; cbn [fst snd].
    destruct (lookupVariable (heapState s) "temperature"); run; try reflexivity.
    destruct (toFloat64 _) as [t []]; cbn [negb]; run; try reflexivity.
    match goal with |- context [setVariable ?k ?v ?e ?s0] =>
      pose proof (setVariable_lookup k v e s0 _ Nc) as Hf;
      destruct (setVariable k v e s0) as [[] ?] end; exact Hf.
Qed.

(** Only the integration executor consults the weather service, and at most
    once. *)
Lemma NodeExecutor_Execute_apiCalls e node env s :
  (apiCalls s <= apiCalls (snd (NodeExecutor_Execute e node env s))
     <= (if e is IntegrationExecutor _ then 1 else 0) + apiCalls s)%nat.
Proof.
  destruct e; cbn [NodeExecutor_Execute]; try (cbn; lia).
  - unfold FormExecutor_Execute. run. destruct (checkFields _ _); cbn; lia.
  - unfold IntegrationExecutor_Execute. run. unfold readState; cbn [fst snd].
    destruct (findCoordinates _ _); run; try (cbn; lia).
    destruct (fst (GetTemperature _ _ _ _ _)) eqn:E; run; try (cbn; lia).
    match goal with |- context [setVariable ?k ?v ?e ?s0] =>
      pose proof (setVariable_apiCalls k v e s0) as Hf;
      destruct (setVariable k v e s0) as [[] ?] end;
      unfold ret; cbn [fst snd] in *; rewrite Hf;
      cbn [GetTemperature snd apiCalls]; lia.
  - unfold ConditionExecutor_Execute. run. unfold readState; cbn [fst snd].
    destruct (lookupVariable _ _); run; try (cbn; lia).
    destruct (toFloat64 _) as [t []]; cbn [negb]; run; try (cbn; lia).
    match goal with |- context [setVariable ?k ?v ?e ?s0] =>
      pose proof (setVariable_apiCalls k v e s0) as Hf;
      destruct (setVariable k v e s0) as [[] ?] end;
      unfold ret; cbn [fst snd] in *; rewrite Hf;
      cbn [GetTemperature snd apiCalls]; lia.
Qed.

Variable registry : gmap string NodeExecutor.
Variable env : Env.

Lemma dispatched_variables ls s r s2 k :
  dispatched registry env ls s r s2 ->
  k <> "temperature" -> k <> "conditionResult" ->
  lookupVariable (heapState s2) k = lookupVariable (heapState s) k.
Proof.
  intros (executor & _ & Hx) Nt Nc.
  pose proof (NodeExecutor_Execute_variables executor (current ls) env
                (snd (timeNow env s)) k Nt Nc) as L.
  rewrite Hx in L. exact L.
Qed.

Lemma dispatched_apiCalls ls s r s2 :
  dispatched registry env ls s r s2 ->
  (apiCalls s <= apiCalls s2
     <= (if callsService registry (Node_Type (current ls)) then 1 else 0)
        + apiCalls s)%nat.
Proof.
  intros (executor & E & Hx).
  pose proof (NodeExecutor_Execute_apiCalls executor (current ls) env
                (snd (timeNow env s))) as L.
  rewrite Hx in L. cbn [snd timeNow apiCalls] in L.
  unfold callsService. rewrite E. destruct executor; exact L.
Qed.

Lemma entry_variables s0 k :
  lookupVariable (heapState (entry env s0)) k = lookupVariable (heapState s0) k.
Proof.
  unfold entry, initVariables. run. unfold readState; cbn [fst snd].
  unfold lookupVariable.
  destruct (Variables (heapState s0)) eqn:E; cbn; rewrite ?E; reflexivity.
Qed.

Lemma entry_apiCalls s0 : apiCalls (entry env s0) = apiCalls s0.
Proof.
  unfold entry, initVariables. run. unfold readState; cbn [fst snd].
  destruct (Variables (heapState s0)); reflexivity.
Qed.

Lemma visits_variables s0 ls s k :
  visits registry env s0 ls s ->
  k <> "temperature" -> k <> "conditionResult" ->
  lookupVariable (heapState s) k = lookupVariable (heapState s0) k.
Proof.
  intros V Nt Nc. revert ls s V. apply visits_ind.
  - intros start _. apply entry_variables.
  - intros ls s result s2 node _ IH _ D _ _. cbn.
    rewrite (dispatched_variables _ _ _ _ _ D Nt Nc). exact IH.
Qed.

Lemma lookups_snoc (l : list ExecutionStep) (step : ExecutionStep) :
  lookups registry (l ++ [step])
    = (lookups registry l
       + if callsService registry (Step_NodeType step) then 1 else 0)%nat.
Proof.
  unfold lookups. rewrite filter_app, length_app. f_equal.
  rewrite filter_cons, filter_nil.
  destruct (callsService registry (Step_NodeType step)); reflexivity.
Qed.

Lemma visits_apiCalls s0 ls s :
  visits registry env s0 ls s ->
  (apiCalls s0 <= apiCalls s <= apiCalls s0 + lookups registry (steps ls))%nat.
Proof.
  revert ls s. apply visits_ind.
  - intros start _. rewrite entry_apiCalls. cbn. lia.
  - intros ls s result s2 node _ IH _ D _ _. cbn [steps ticks apiCalls].
    rewrite lookups_snoc. cbn [doneStep newStep Step_NodeType].
    pose proof (dispatched_apiCalls _ _ _ _ D). lia.
Qed.

(** The store in which a run of [Execute] ends: that of a visit, that left
    by the executor of a visited node, or either after further readings of
    the clock. *)
Lemma outcome_store s0 r s' :
  outcome registry env s0 r s' ->
  (s' = entry env s0 /\ r = EngineFailure NoStartNode) \/
  (exists ls, visits registry env s0 ls s' /\
     match r with Results _ => False | _ => True end) \/
  (exists ls s o s2 n,
     visits registry env s0 ls s /\ dispatched registry env ls s o s2 /\
     s' = ticks n s2 /\
     match r with
     | Results results =>
         exists step, Steps results = steps ls ++ [step] /\
                      Step_NodeType step = Node_Type (current ls)
     | _ => True
     end).
Proof.
  intros [err sx F|ls s result s2 V G D N|ls s execErr s2 V G D
         |ls s result s2 V G D N].
  - destruct F as [Hn|ls s V G Er|ls s result s2 next V G D -> Hne Hn|ls s V G].
    + left. auto.
    + right. left. exists ls. auto.
    + right. right. exists ls, s, (Done result), s2, 2%nat. auto.
    + right. left. exists ls. auto.
  - right. right. exists ls, s, (Done result), s2, 2%nat. auto.
  - right. right. exists ls, s, (Failed execErr), s2, 3%nat.
    repeat split; auto. eexists. split; reflexivity.
  - right. right. exists ls, s, (Done result), s2, 3%nat.
    repeat split; auto. eexists. split; reflexivity.
Qed.

(** X7. Of the variables of the state a run writes [temperature] and
    [conditionResult] only: every other variable is after the run what it
    was before it, absent ones included; and the map of variables is not
    nil after the run, also when it was before. *)
Theorem Execute_writes_two_variables s0 k :
  k <> "temperature" -> k <> "conditionResult" ->
  lookupVariable (heapState (snd (Execute registry env s0))) k
    = lookupVariable (heapState s0) k /\
  is_Some (Variables (heapState (snd (Execute registry env s0)))).
Proof.
  intros Nt Nc.
  destruct (Execute_outcome registry env s0) as (r & s' & E & O).
  rewrite E. cbn [snd].
  apply outcome_store in O
    as [(-> & _)|[(ls & V & _)|(ls & s & o & s2 & n & V & D & -> & _)]].
  - split; [apply entry_variables|apply entry_is_Some].
  - split; [apply (visits_variables _ _ _ _ V Nt Nc)|].
    apply (visits_invariant _ _ _ _ _ V).
  - cbn. split.
    + rewrite (dispatched_variables _ _ _ _ _ D Nt Nc).
      apply (visits_variables _ _ _ _ V Nt Nc).
    + destruct D as (executor & _ & Hx).
      pose proof (NodeExecutor_Execute_frame executor (current ls) env
                    (snd (timeNow env s))) as [_ _ _ Fv].
      rewrite Hx in Fv. apply Fv. cbn.
      apply (visits_invariant _ _ _ _ _ V).
Qed.

Lemma Execute_apiCalls s0 results s' :
  Execute registry env s0 = (Some (Results results), s') ->
  (apiCalls s0 <= apiCalls s'
     <= apiCalls s0 + lookups registry (Steps results))%nat.
Proof.
  intros E.
  destruct (Execute_outcome registry env s0) as (r & sx & E' & O).
  rewrite E in E'. injection E' as <- <-.
  apply outcome_store in O
    as [(_ & [=])|[(ls & _ & [])
                  |(ls & s & o & s2 & n & V & D & -> & step & -> & T)]].
  rewrite lookups_snoc, T. cbn.
  pose proof (visits_apiCalls _ _ _ V).
  pose proof (dispatched_apiCalls _ _ _ _ D). lia.
Qed.

End Resources.

Lemma NewRegistry_callsService (client : WeatherClient) (nodeType : string) :
  callsService (NewRegistry client) nodeType = true <-> nodeType = "integration".
Proof.
  unfold callsService, NewRegistry. cbn [list_to_map foldr].
  repeat (rewrite lookup_insert;
          destruct (decide (_ = nodeType)) as [<-|?]; [split; (discriminate || reflexivity || auto)|]).
  rewrite lookup_empty. cbn [fst] in *. split; [discriminate|congruence].
Qed.

(** X8. Under the registry of the package the weather service is consulted
    by integration nodes only, at most once for each: a run that returns
    results has made no more lookups than its steps of type [integration]
    are. *)
Theorem Execute_consults_the_service_once_per_integration_step
    `{GoLib} (client : WeatherClient) (env : Env) (s0 : Store)
    (results : ExecutionResults) (s' : Store) :
  Execute (NewRegistry client) env s0 = (Some (Results results), s') ->
  (apiCalls s0 <= apiCalls s'
     <= apiCalls s0
        + length (filter (fun step => Step_NodeType step = "integration")
                    (Steps results)))%nat.
Proof.
  intros E. apply Execute_apiCalls in E. unfold lookups in E.
  assert (forall l : list ExecutionStep,
            length (filter (fun step =>
                      callsService (NewRegistry client) (Step_NodeType step) = true)
                      l)
            = length (filter (fun step => Step_NodeType step = "integration") l))
    as L.
  { induction l as [|step l IH]; [reflexivity|].
    rewrite !filter_cons.
    destruct (decide (callsService _ _ = true)) as [C|C];
      destruct (decide (Step_NodeType step = "integration")) as [T|T];
      cbn [length]; rewrite ?IH; try reflexivity.
    - apply NewRegistry_callsService in C. contradiction.
    - exfalso. apply C, NewRegistry_callsService. exact T. }
  rewrite L in E. exact E.
Qed.

(** ** The start node and the two indexes *)

(** X9. [findStartNode] returns the first node of type [start] of the
    list, and fails exactly when the list has none. *)
Theorem findStartNode_is_the_first_start_node (nodes : list Node) :
  (forall start,
     findStartNode nodes = Some start <->
     exists before after,
       nodes = before ++ start :: after /\
       Node_Type start = "start" /\
       Forall (fun node => Node_Type node <> "start") before) /\
  (findStartNode nodes = None <->
   Forall (fun node => Node_Type node <> "start") nodes).
Proof.
  split; [|apply findStartNode_None].
  intros start. split; [apply findStartNode_Some|].
  intros (before & after & -> & T & N).
  induction N as [|node before Hn _ IH]; cbn.
  - apply String.eqb_eq in T. rewrite T. reflexivity.
  - apply String.eqb_neq in Hn. rewrite Hn. exact IH.
Qed.

Lemma buildEdgeMap_from_filter (edges : list Edge) (source : string) :
  forall m : gmap string (list Edge),
    foldl (fun m edge =>
             <[Edge_Source edge :=
                 default [] (m !! Edge_Source edge) ++ [edge]]> m)
          m edges !! source
    = match filter (fun edge => Edge_Source edge = source) edges with
      | [] => m !! source
      | found => Some (default [] (m !! source) ++ found)
      end.
Proof.
  induction edges as [|edge edges IH]; intros m; cbn [foldl].
  - reflexivity.
  - rewrite IH, lookup_insert, filter_cons.
    destruct (decide (Edge_Source edge = source)) as [->|Hne];
      cbn [default from_option id].
    + destruct (filter _ edges); [reflexivity|].
      rewrite <- app_assoc. reflexivity.
    + reflexivity.
Qed.

(** X10. [buildEdgeMap] groups the edges by their source: the entry of a
    node holds its outgoing edges, all of them and in the order of the
    definition; a node without outgoing edge has no entry. *)
Theorem buildEdgeMap_groups_the_edges_by_source (edges : list Edge)
    (id : string) :
  (buildEdgeMap edges !! id = None <->
   Forall (fun edge => Edge_Source edge <> id) edges) /\
  (forall found,
     buildEdgeMap edges !! id = Some found <->
     found = filter (fun edge => Edge_Source edge = id) edges /\ found <> []).
Proof.
  unfold buildEdgeMap. rewrite buildEdgeMap_from_filter, lookup_empty.
  cbn [default app].
  destruct (filter (fun edge => Edge_Source edge = id) edges) as [|e l] eqn:F.
  - split.
    + split; [intros _|reflexivity].
      apply Forall_forall. intros edge I E.
      assert (edge ∈ filter (fun edge => Edge_Source edge = id) edges) as I'
        by (apply list_elem_of_filter; auto).
      rewrite F in I'. apply elem_of_nil in I'. exact I'.
    + intros found. split; [discriminate|]. intros [-> N]. congruence.
  - split.
    + split; [discriminate|]. intros N. exfalso.
      assert (e ∈ filter (fun edge => Edge_Source edge = id) edges) as I
        by (rewrite F; apply list_elem_of_here).
      apply list_elem_of_filter in I as (E & I).
      rewrite Forall_forall in N. exact (N e I E).
    + intros found. split.
      * intros [= <-]. split; [reflexivity|discriminate].
      * intros [-> _]. reflexivity.
Qed.

(** X11. The node index maps an ID to the last node of the list that
    carries it (while the start node is the first of its type): of two
    nodes with one ID, the edges that name the ID lead to the later one. *)
Theorem buildNodeMap_keeps_the_last_node (nodes : list Node) (id : string) :
  (forall node,
     buildNodeMap nodes !! id = Some node <->
     exists before after,
       nodes = before ++ node :: after /\
       Node_ID node = id /\
       Forall (fun other => Node_ID other <> id) after) /\
  (buildNodeMap nodes !! id = None <->
   Forall (fun node => Node_ID node <> id) nodes).
Proof.
  split; [|apply buildNodeMap_None].
  intros node. rewrite buildNodeMap_last. split.
  - intros L.
    assert (Node_ID node = id) as E.
    { apply last_Some_elem_of, list_elem_of_filter in L. tauto. }
    apply last_filter_Some in L as (before & after & -> & N).
    exists before, after. auto.
  - intros (before & after & -> & E & N).
    rewrite filter_app, filter_cons, decide_True by exact E.
    assert (filter (fun node => Node_ID node = id) after = []) as ->.
    { induction N as [|other after Hn _ IH]; [reflexivity|].
      rewrite filter_cons, decide_False by exact Hn. exact IH. }
    apply last_snoc.
Qed.

(** ** More on the executors *)

Section Executors.

Context `{GoLib}.

Ltac run :=
  repeat (rewrite ?bind_run, ?ret_run; cbn [fst snd]).

Lemma checkFields_None (fields : list string) (formData : gmap string value) :
  checkFields fields formData = None <-> Forall (filled formData) fields.
Proof.
  induction fields as [|field fields IH]; cbn.
  - split; [constructor|reflexivity].
  - rewrite Forall_cons, <- IH. unfold filled.
    destruct (formData !! field) as [[|b|s|f|f|n|n|l|m]|] eqn:E;
      try (split; [discriminate|intros [(s' & [=] & _) _]]; fail).
    destruct (String.eqb (TrimSpace s) EmptyString) eqn:T.
    + apply String.eqb_eq in T.
      split; [discriminate|]. intros [(s' & [= <-] & N) _]. contradiction.
    + apply String.eqb_neq in T. split; [eauto|tauto].
Qed.

Lemma checkFields_Some (fields : list string) (formData : gmap string value)
    (err : string) :
  checkFields fields formData = Some err ->
  exists before field after,
    fields = before ++ field :: after /\
    Forall (filled formData) before /\
    ~ filled formData field /\
    err = match formData !! field with
          | None => "missing required field: " +:+ field
          | Some _ => "field " +:+ field +:+ " must be a non-empty string"
          end.
Proof.
  induction fields as [|field fields IH]; cbn; [discriminate|].
  assert (forall text,
            ~ filled formData field ->
            text = match formData !! field with
                   | None => "missing required field: " +:+ field
                   | Some _ => "field " +:+ field +:+ " must be a non-empty string"
                   end ->
            Some text = Some err ->
            exists before field' after,
              field :: fields = before ++ field' :: after /\
              Forall (filled formData) before /\
              ~ filled formData field' /\
              err = match formData !! field' with
                    | None => "missing required field: " +:+ field'
                    | Some _ =>
                        "field " +:+ field' +:+ " must be a non-empty string"
                    end) as Here.
  { intros text N -> [= <-]. exists [], field, fields. auto. }
  destruct (formData !! field) as [v|] eqn:E.
  - destruct v as [|b|s|f|f|n|n|l|m];
      try (intros Hs; eapply Here;
           [intros (s' & E' & _); rewrite E in E'; discriminate E'
           |reflexivity|exact Hs]; fail).
    destruct (String.eqb (TrimSpace s) EmptyString) eqn:T.
    + apply String.eqb_eq in T.
      intros Hs. eapply Here; [|reflexivity|exact Hs].
      intros (s' & E' & N). rewrite E in E'. injection E' as <-. contradiction.
    + apply String.eqb_neq in T. intros C.
      destruct (IH C) as (before & field' & after & -> & F & N & ->).
      exists (field :: before), field', after.
      repeat split; auto. constructor; [|exact F]. exists s. auto.
  - intros Hs. eapply Here; [|reflexivity|exact Hs].
    intros (s' & E' & _). rewrite E in E'. discriminate E'.
Qed.

Lemma FormExecutor_Execute_Failed (node : Node) (env : Env) (s : Store)
    (err : string) :
  fst (FormExecutor_Execute node env s) = Failed err <->
  checkFields ["name"; "email"; "city"] (FormData (heapState s)) = Some err.
Proof.
  unfold FormExecutor_Execute. run. unfold readState. cbn [fst snd].
  destruct (checkFields _ _); cbn [fst ret]; split; congruence.
Qed.

(** X12. The form executor completes exactly when [name], [email] and
    [city] are strings that are not blank; otherwise it fails with an error
    that names the first of the three, in this order, that is not.  It
    changes nothing. *)
Theorem FormExecutor_Execute_checks_three_fields (node : Node) (env : Env)
    (s : Store) :
  snd (FormExecutor_Execute node env s) = s /\
  ((exists result, fst (FormExecutor_Execute node env s) = Done result) <->
   Forall (filled (FormData (heapState s))) ["name"; "email"; "city"]) /\
  (forall err,
     fst (FormExecutor_Execute node env s) = Failed err <->
     exists before field after,
       ["name"; "email"; "city"] = before ++ field :: after /\
       Forall (filled (FormData (heapState s))) before /\
       ~ filled (FormData (heapState s)) field /\
       err = match FormData (heapState s) !! field with
             | None => "missing required field: " +:+ field
             | Some _ => "field " +:+ field +:+ " must be a non-empty string"
             end).
Proof.
  unfold FormExecutor_Execute. run. unfold readState. cbn [fst snd].
  destruct (checkFields _ _) as [err|] eqn:C; cbn [fst snd ret].
  - split; [reflexivity|]. split.
    + split; [intros (result & [=])|].
      intros F. apply checkFields_None in F. congruence.
    + intros err'. split.
      * intros [= <-]. apply checkFields_Some. exact C.
      * intros (before & field & after & E & F & N & ->). f_equal.
        apply checkFields_Some in C
          as (before' & field' & after' & E' & F' & N' & ->).
        assert (before = before' /\ field = field') as [-> ->]; [|reflexivity].
        clear -E E' F F' N N'. rewrite E in E'. clear E.
        revert before' E' F'.
        induction F as [|x before Hx _ IH]; intros [|y before'] E' F'.
        -- injection E' as -> _. auto.
        -- injection E' as -> _. inversion F'; subst. contradiction.
        -- injection E' as -> _. contradiction.
        -- injection E' as -> E'. inversion F'; subst.
           destruct (IH before' E') as [-> ->]; auto.
  - split; [reflexivity|]. split.
    + split; [intros _; apply checkFields_None; exact C|eauto].
    + intros err. split; [discriminate|].
      intros (before & field & after & E & F & N & _). exfalso.
      apply checkFields_None in C. rewrite E in C.
      apply Forall_app in C as (_ & C). inversion C; subst. contradiction.
Qed.

(** X13. An executor changes the state only when it completes: after a
    failure the state is what it was.  An executor panics in one case only:
    the integration executor, on a nil map of variables, once the weather
    service has answered with a temperature. *)
Theorem NodeExecutor_Execute_changes_the_state_only_on_success
    (e : NodeExecutor) (node : Node) (env : Env) (s : Store) :
  match fst (NodeExecutor_Execute e node env s) with
  | Done _ => True
  | Failed _ => heapState (snd (NodeExecutor_Execute e node env s)) = heapState s
  | Panicked =>
      heapState (snd (NodeExecutor_Execute e node env s)) = heapState s /\
      Variables (heapState s) = None /\
      apiCalls (snd (NodeExecutor_Execute e node env s)) = S (apiCalls s) /\
      exists client, e = IntegrationExecutor client
  end.
Proof.
  destruct e; cbn [NodeExecutor_Execute]; try exact I.
  - unfold FormExecutor_Execute. run. unfold readState. cbn [fst snd].
    destruct (checkFields _ _); cbn; auto.
  - unfold IntegrationExecutor_Execute. run. unfold readState; cbn [fst snd].
    destruct (findCoordinates _ _); run; try reflexivity.
    destruct (fst (GetTemperature _ _ _ _ _)) eqn:E; run; try reflexivity.
    rewrite setVariable_run. cbn [GetTemperature snd heapState].
    destruct (Variables (heapState s)) eqn:V; cbn; eauto.
  - unfold ConditionExecutor_Execute. run. unfold readState; cbn [fst snd].
    destruct (lookupVariable _ _) eqn:L; run; try reflexivity.
    destruct (toFloat64 _) as [t []]; cbn [negb]; run; try reflexivity.
    rewrite setVariable_run. unfold lookupVariable in L.
    destruct (Variables (heapState s)) eqn:V; [exact I|discriminate].
Qed.

(** X14. The five operators agree with each other.  When the temperature
    and the threshold are numbers, infinities included, exactly one of
    [less_than], [equals] and [greater_than] holds, [greater_than_or_equal]
    is the negation of [less_than] and [less_than_or_equal] that of
    [greater_than]; when one of the two is a NaN every operator gives
    false, so that the branch [false] is taken. *)
Theorem evaluateCondition_operators_are_consistent (t th : float64) :
  if F64.is_nan t || F64.is_nan th then
    forall operator, evaluateCondition t operator th = false
  else
    exists c : comparison,
      evaluateCondition t "greater_than" th
        = match c with Gt => true | _ => false end /\
      evaluateCondition t "less_than" th
        = match c with Lt => true | _ => false end /\
      evaluateCondition t "equals" th
        = match c with Eq => true | _ => false end /\
      evaluateCondition t "greater_than_or_equal" th
        = match c with Lt => false | _ => true end /\
      evaluateCondition t "less_than_or_equal" th
        = match c with Gt => false | _ => true end.
Proof.
  assert (forall x y, roundTenth x = S754_nan \/ roundTenth y = S754_nan ->
            SFcompare (roundTenth y) (roundTenth x) = None /\
            SFcompare (roundTenth x) (roundTenth y) = None) as Nan.
  { intros x y [E|E]; rewrite E; split; try reflexivity;
      match goal with
      | |- SFcompare ?a S754_nan = None => destruct a; reflexivity
      end. }
  destruct (F64.is_nan t || F64.is_nan th) eqn:N.
  - intros operator.
    assert (roundTenth t = S754_nan \/ roundTenth th = S754_nan) as E.
    { apply orb_true_iff in N as [N|N]; [left; destruct t|right; destruct th];
        try discriminate N; reflexivity. }
    destruct (Nan t th E) as (C' & C).
    unfold evaluateCondition. fold (roundTenth t) (roundTenth th).
    unfold F64.gt, F64.lt, F64.eq, F64.ge, F64.le, SFltb, SFeqb, SFleb.
    rewrite C, C'.
    repeat (destruct (String.eqb operator _); [reflexivity|]). reflexivity.
  - apply orb_false_iff in N as (Nt & Nth).
    assert (t <> S754_nan) as Ht by (intros ->; discriminate Nt).
    assert (th <> S754_nan) as Hth by (intros ->; discriminate Nth).
    destruct (SFcompare_not_nan _ _ (roundTenth_not_nan _ Ht)
                (roundTenth_not_nan _ Hth)) as [c Hc].
    exists c.
    unfold evaluateCondition. cbn [String.eqb Ascii.eqb Bool.eqb andb].
    fold (roundTenth t) (roundTenth th).
    unfold F64.gt, F64.lt, F64.eq, F64.ge, F64.le, SFltb, SFeqb, SFleb.
    rewrite (SFcompare_swap (roundTenth t) (roundTenth th)), Hc.
    destruct c; repeat split; reflexivity.
Qed.

End Executors.

(** ** The substitution of the email executor *)

Lemma Replacer_scan_skip (r : Replacer) (skipped rest : string) :
  Replacer_scan r (String.length skipped) (skipped +:+ rest)
    = Replacer_scan r O rest.
Proof.
  induction skipped as [|c skipped IH]; cbn; [|exact IH].
  destruct rest; reflexivity.
Qed.

(** At a position where [old] is the first of the texts to match, [new] is
    written and the scan goes on behind [old]: what has been written is not
    read again. *)
Lemma Replacer_Replace_match (r : Replacer) (c : ascii) (old new rest : string) :
  Replacer_match r (String c old +:+ rest) = Some (String c old, new) ->
  Replacer_Replace r (String c old +:+ rest)
    = new +:+ Replacer_Replace r rest.
Proof.
  change (String c old +:+ rest) with (String c (old +:+ rest)).
  intros M. unfold Replacer_Replace. cbn [Replacer_scan].
  rewrite M. cbn [String.length Nat.pred].
  rewrite Replacer_scan_skip. reflexivity.
Qed.

Lemma emailReplacer_plain (name city : string) (temperature : float64)
    (c : ascii) (s : string) :
  Ascii.eqb c "{" = false ->
  Replacer_match (emailReplacer name city temperature) (String c s) = None.
Proof.
  intros N. unfold emailReplacer. cbn [Replacer_match String.prefix].
  destruct (ascii_dec "{" c) as [<-|_]; [discriminate N|reflexivity].
Qed.

Lemma prefix_append (old rest : string) : String.prefix old (old +:+ rest) = true.
Proof.
  induction old as [|c old IH].
  - destruct rest; reflexivity.
  - change (String c old +:+ rest) with (String c (old +:+ rest)).
    cbn [String.prefix]. destruct (ascii_dec c c); [exact IH|congruence].
Qed.

Lemma emailReplacer_match (name city : string) (temperature : float64)
    (rest : string) :
  Replacer_match (emailReplacer name city temperature) ("{{name}}" +:+ rest)
    = Some ("{{name}}", name) /\
  Replacer_match (emailReplacer name city temperature) ("{{city}}" +:+ rest)
    = Some ("{{city}}", city) /\
  Replacer_match (emailReplacer name city temperature)
    ("{{temperature}}" +:+ rest)
    = Some ("{{temperature}}", F64.format_f1 temperature).
Proof.
  unfold emailReplacer. cbn [Replacer_match]. rewrite !prefix_append.
  change (String.prefix "{{name}}" ("{{city}}" +:+ rest)) with false.
  change (String.prefix "{{name}}" ("{{temperature}}" +:+ rest)) with false.
  change (String.prefix "{{city}}" ("{{temperature}}" +:+ rest)) with false.
  auto.
Qed.

(** X15. The substitution of the email executor is one pass from left to
    right: a text without brace is copied, a placeholder is replaced by its
    value, and the scan goes on behind the placeholder, so that a value is
    written as it is, whatever it contains. *)
Theorem emailReplacer_replaces_in_one_pass (name city : string)
    (temperature : float64) (plain rest : string) :
  braceFree plain = true ->
  let replace := Replacer_Replace (emailReplacer name city temperature) in
  replace plain = plain /\
  replace (plain +:+ "{{name}}" +:+ rest) = plain +:+ name +:+ replace rest /\
  replace (plain +:+ "{{city}}" +:+ rest) = plain +:+ city +:+ replace rest /\
  replace (plain +:+ "{{temperature}}" +:+ rest)
    = plain +:+ F64.format_f1 temperature +:+ replace rest.
Proof.
  intros P. cbn zeta.
  assert (forall tail,
            Replacer_Replace (emailReplacer name city temperature)
              (plain +:+ tail)
            = plain +:+ Replacer_Replace (emailReplacer name city temperature)
                          tail) as Copy.
  { induction plain as [|c plain IH]; intros tail; [reflexivity|].
    cbn [braceFree] in P. apply andb_true_iff in P as (N & P).
    apply negb_true_iff in N.
    change (String c plain +:+ tail) with (String c (plain +:+ tail)).
    change (String c plain +:+ Replacer_Replace (emailReplacer name city temperature) tail)
      with (String c (plain +:+ Replacer_Replace (emailReplacer name city temperature) tail)).
    unfold Replacer_Replace in *. cbn [Replacer_scan].
    rewrite (emailReplacer_plain _ _ _ _ _ N), (IH P). reflexivity. }
  split; [|split; [|split]].
  - specialize (Copy EmptyString).
    change (Replacer_Replace (emailReplacer name city temperature) EmptyString)
      with EmptyString in Copy.
    assert (plain +:+ EmptyString = plain) as A
      by (clear; induction plain as [|c plain IH];
          [reflexivity
          |change (String c (plain +:+ EmptyString) = String c plain);
           rewrite IH; reflexivity]).
    rewrite !A in Copy. exact Copy.
  - rewrite Copy. f_equal.
    apply (Replacer_Replace_match _ "{" "{name}}"). apply emailReplacer_match.
  - rewrite Copy. f_equal.
    apply (Replacer_Replace_match _ "{" "{city}}"). apply emailReplacer_match.
  - rewrite Copy. f_equal.
    apply (Replacer_Replace_match _ "{" "{temperature}}").
    apply emailReplacer_match.
Qed.

(** ** The HTTP boundary *)

Lemma requireFields_None (fields : list string) (formData : gmap string value) :
  Handlers.requireFields fields formData = None <->
  Forall (given formData) fields.
Proof.
  induction fields as [|field fields IH]; cbn.
  - split; [constructor|reflexivity].
  - rewrite Forall_cons, <- IH. unfold given.
    destruct (formData !! field) as [[|b|s|f|f|n|n|l|m]|] eqn:E;
      try (split; [discriminate|intros [(s' & [=] & _) _]]; fail).
    destruct (String.eqb s EmptyString) eqn:T.
    + apply String.eqb_eq in T.
      split; [discriminate|]. intros [(s' & [= <-] & N) _]. contradiction.
    + apply String.eqb_neq in T. split; [eauto|tauto].
Qed.

Lemma requireFields_Some (fields : list string) (formData : gmap string value)
    (err : Handlers.validationError) :
  Handlers.requireFields fields formData = Some err ->
  exists field, field ∈ fields /\ err = Handlers.errMissing field.
Proof.
  induction fields as [|field fields IH]; cbn; [discriminate|].
  assert (Some (Handlers.errMissing field) = Some err ->
          exists field', field' ∈ field :: fields /\
                         err = Handlers.errMissing field') as Here.
  { intros [= <-]. exists field. split; [apply list_elem_of_here|reflexivity]. }
  destruct (formData !! field) as [[|b|s|f|f|n|n|l|m]|]; try exact Here.
  destruct (String.eqb s EmptyString); [exact Here|].
  intros R. destruct (IH R) as (field' & I & ->).
  exists field'. split; [apply list_elem_of_further; exact I|reflexivity].
Qed.

Lemma validOperators_lookup (operator : string) :
  default false (Handlers.validOperators !! operator) = true <->
  In operator validOperators.
Proof.
  unfold Handlers.validOperators, validOperators.
  cbn [list_to_map foldr In].
  repeat (rewrite lookup_insert;
          destruct (decide (_ = operator)) as [<-|?];
          [cbn; split; [intros _; tauto|reflexivity]|]).
  rewrite lookup_empty. cbn [fst] in *. cbn. split; [discriminate|].
  intros [E|[E|[E|[E|[E|[]]]]]]; congruence.
Qed.

Lemma validateExecuteRequest_None (req : Handlers.ExecuteRequest) :
  Handlers.validateExecuteRequest req = None <->
  exists formData,
    Handlers.Request_FormData req = Some formData /\
    Forall (given formData) ["name"; "email"; "city"] /\
    In (Operator (Handlers.Request_Condition req)) validOperators.
Proof.
  unfold Handlers.validateExecuteRequest.
  destruct (Handlers.Request_FormData req) as [formData|].
  - destruct (Handlers.requireFields _ formData) as [err|] eqn:R.
    + split; [discriminate|]. intros (fd & [= <-] & F & _).
      apply requireFields_None in F. congruence.
    + apply requireFields_None in R.
      destruct (default false _) eqn:V; cbn [negb].
      * apply validOperators_lookup in V. split; [eauto|reflexivity].
      * split; [discriminate|]. intros (fd & _ & _ & I).
        apply validOperators_lookup in I. congruence.
  - split; [discriminate|]. intros (fd & [=] & _).
Qed.

(** X16. [validateExecuteRequest] accepts a request exactly when its form
    data is there, [name], [email] and [city] are strings that are not
    empty, and the operator is one of the five; the errors it returns read
    as one of five messages. *)
Theorem validateExecuteRequest_accepts (req : Handlers.ExecuteRequest) :
  (Handlers.validateExecuteRequest req = None <->
   exists formData,
     Handlers.Request_FormData req = Some formData /\
     Forall (given formData) ["name"; "email"; "city"] /\
     In (Operator (Handlers.Request_Condition req)) validOperators) /\
  (forall err,
     Handlers.validateExecuteRequest req = Some err ->
     Handlers.validationError_Error err
       ∈ ["formData is required"; "name is required"; "email is required";
          "city is required"; "operator is invalid"]).
Proof.
  split; [apply validateExecuteRequest_None|].
  unfold Handlers.validateExecuteRequest.
  destruct (Handlers.Request_FormData req) as [formData|].
  - destruct (Handlers.requireFields _ formData) as [err|] eqn:R.
    + intros err' [= <-].
      apply requireFields_Some in R as (field & I & ->).
      repeat (apply elem_of_cons in I as [->|I];
              [cbn; repeat constructor|]).
      apply elem_of_nil in I. contradiction.
    + destruct (default false _); cbn [negb]; [discriminate|].
      intros err [= <-]. cbn. repeat constructor.
  - intros err [= <-]. cbn. repeat constructor.
Qed.

Section Boundary.

Context `{GoLib}.

Ltac run :=
  repeat (rewrite ?bind_run, ?ret_run; cbn [fst snd]).

(** X17. On the form data of a request that [validateExecuteRequest] has
    accepted, the form executor reports no missing field: it fails only
    on a field that is a string of white space, which the validation lets
    through. *)
Theorem FormExecutor_Execute_after_validation (req : Handlers.ExecuteRequest)
    (node : Node) (env : Env) (s : Store) (err : string) :
  Handlers.validateExecuteRequest req = None ->
  heapState s = Handlers.newState req ->
  fst (FormExecutor_Execute node env s) = Failed err ->
  exists field text,
    field ∈ ["name"; "email"; "city"] /\
    FormData (heapState s) !! field = Some (VString text) /\
    text <> EmptyString /\
    TrimSpace text = EmptyString /\
    err = "field " +:+ field +:+ " must be a non-empty string".
Proof.
  intros V S Hf.
  apply validateExecuteRequest_None in V as (formData & E & F & _).
  assert (FormData (heapState s) = formData) as Efd
    by (rewrite S; unfold Handlers.newState; cbn; rewrite E; reflexivity).
  apply FormExecutor_Execute_Failed, checkFields_Some in Hf
    as (before & field & after & L & _ & N & ->).
  rewrite Efd in N |- *.
  assert (field ∈ ["name"; "email"; "city"]) as I.
  { rewrite L. apply elem_of_app. right. apply list_elem_of_here. }
  rewrite Forall_forall in F.
  destruct (F field I) as (text & Ef & Ne).
  exists field, text. rewrite Ef.
  split; [exact I|]. split; [reflexivity|]. split; [exact Ne|].
  split; [|reflexivity].
  destruct (String.eqb_spec (TrimSpace text) EmptyString) as [T|T]; [exact T|].
  exfalso. apply N. exists text. auto.
Qed.

(** X18. [HandleExecuteWorkflow] always writes a response.  Its status is
    400 exactly when the body does not decode or the request is not valid,
    whatever the repository holds; 200 exactly when the body is the
    results of the run, which then are those [Execute] returns on the
    stored definition and the state of the request, of status [completed]
    or [failed]; and otherwise 404 or 500.  A response of status 500
    carries the same message whatever went wrong. *)
Theorem HandleExecuteWorkflow_responds (service : Handlers.Service)
    (id : string) (decoded : option Handlers.ExecuteRequest) (env : Env) :
  exists response,
    Handlers.HandleExecuteWorkflow service id decoded env = Some response /\
    (Handlers.StatusCode response = 400 <->
     decoded = None \/
     exists req err,
       decoded = Some req /\ Handlers.validateExecuteRequest req = Some err) /\
    (Handlers.StatusCode response = 200 <->
     exists results, Handlers.ResponseBody response = Handlers.BodyResults results) /\
    (forall results,
       Handlers.ResponseBody response = Handlers.BodyResults results ->
       exists req wf s',
         decoded = Some req /\
         Handlers.validateExecuteRequest req = None /\
         Handlers.Service_repo service id = (Some wf, None) /\
         Execute (Handlers.Engine_registry (Handlers.Service_engine service))
           env (Handlers.newStore wf req)
           = (Some (Results results), s') /\
         (Status results = "completed" \/ Status results = "failed")) /\
    Handlers.StatusCode response ∈ [200; 400; 404; 500] /\
    (Handlers.StatusCode response = 500 ->
     Handlers.ResponseBody response
       = Handlers.BodyMessage {[ "message" := "internal server error" ]}).
Proof.
  unfold Handlers.HandleExecuteWorkflow.
  destruct decoded as [req|].
  2:{ eexists. split; [reflexivity|]. cbn.
      split; [split; auto|]. split; [split; [discriminate|intros (? & [=])]|].
      split; [discriminate|]. split; [repeat constructor|discriminate]. }
  destruct (Handlers.validateExecuteRequest req) as [err|] eqn:V.
  { eexists. split; [reflexivity|]. cbn.
    split; [split; eauto|]. split; [split; [discriminate|intros (? & [=])]|].
    split; [discriminate|]. split; [repeat constructor|discriminate]. }
  assert (forall code : Z,
            code <> 400 ->
            (code = 400 <->
             Some req = None \/
             exists req' err,
               Some req = Some req' /\
               Handlers.validateExecuteRequest req' = Some err)) as Not400.
  { intros code N. split; [contradiction|].
    intros [[=]|(req' & err & [= <-] & V')]. congruence. }
  destruct (Handlers.Service_repo service id) as [[wf|] [err|]] eqn:R.
  1, 3: (eexists; split; [reflexivity|]; cbn;
         split; [apply Not400; discriminate|];
         split; [split; [discriminate|intros (? & [=])]|];
         split; [discriminate|]; split; [repeat constructor|reflexivity]).
  2:{ eexists. split; [reflexivity|]. cbn.
      split; [apply Not400; discriminate|].
      split; [split; [discriminate|intros (? & [=])]|].
      split; [discriminate|]. split; [repeat constructor|discriminate]. }
  destruct (Execute_outcome
              (Handlers.Engine_registry (Handlers.Service_engine service)) env
              (Handlers.newStore wf req)) as (r & s' & E & O).
  rewrite E. cbn [fst].
  destruct r as [results|failure|]; [| |inversion O].
  - eexists. split; [reflexivity|]. cbn.
    split; [apply Not400; discriminate|].
    split; [split; eauto|].
    split; [|split; [repeat constructor|discriminate]].
    intros results' [= <-]. exists req, wf, s'.
    repeat split; auto.
    inversion O; subst; cbn; auto.
  - eexists. split; [reflexivity|]. cbn.
    split; [apply Not400; discriminate|].
    split; [split; [discriminate|intros (? & [=])]|].
    split; [discriminate|]. split; [repeat constructor|reflexivity].
Qed.

End Boundary.

(** ** The branch of a condition node, and the durations of a run *)

Section Branch.

Context `{GoLib}.

Ltac run :=
  repeat (rewrite ?bind_run, ?ret_run; cbn [fst snd]).

(** X19. When the condition executor completes, the temperature it has
    read is a number, its output and the branch token it stores are the
    value of the condition of the request at that temperature, and the
    engine leaves a condition node by the first edge whose handle is that
    token, or by none when there is no such edge. *)
Theorem ConditionExecutor_Execute_chooses_the_branch (node : Node) (env : Env)
    (s : Store) (result : StepResult) (s2 : Store) (edges : list Edge) :
  Node_Type node = "condition" ->
  ConditionExecutor_Execute node env s = (Done result, s2) ->
  exists v t,
    lookupVariable (heapState s) "temperature" = Some v /\
    toFloat64 v = (t, true) /\
    let met :=
      evaluateCondition t (Operator (Condition (heapState s)))
        (Threshold (Condition (heapState s))) in
    Result_Output result !! "conditionMet" = Some (VBool met) /\
    lookupVariable (heapState s2) "conditionResult"
      = Some (VString (branchToken met)) /\
    nextNodeID node edges (heapState s2) =
      match List.find (fun edge =>
                         String.eqb (Edge_SourceHandle edge) (branchToken met))
              edges with
      | Some edge => Edge_Target edge
      | None => EmptyString
      end.
Proof.
  intros T. unfold ConditionExecutor_Execute. rewrite bind_run.
  unfold readState. cbn [fst snd].
  destruct (lookupVariable (heapState s) "temperature") as [v|]; [|discriminate].
  destruct (toFloat64 v) as [t []] eqn:F; cbn [negb]; [|discriminate].
  rewrite bind_run, setVariable_run.
  destruct (Variables (heapState s)) as [vars|]; cbn [fst snd]; [|discriminate].
  intros [= <- <-]. exists v, t. split; [reflexivity|]. split; [exact F|].
  cbn zeta.
  assert (forall token,
            lookupVariable
              {| FormData := FormData (heapState s);
                 Condition := Condition (heapState s);
                 Variables := Some (<["conditionResult" := VString token]> vars) |}
              "conditionResult" = Some (VString token)) as L.
  { intros token. unfold lookupVariable. cbn. apply lookup_insert_eq. }
  split; [reflexivity|]. split; [apply L|].
  unfold nextNodeID. rewrite T. cbn [String.eqb Ascii.eqb Bool.eqb andb].
  cbn [heapState]. rewrite L. cbn [default assertString].
  apply followHandle_find.
Qed.

End Branch.

Section Durations.

Context `{GoLib}.

Ltac run :=
  repeat (rewrite ?bind_run, ?ret_run; cbn [fst snd]).

Lemma NodeExecutor_Execute_clockReads e node env s :
  (clockReads s <= clockReads (snd (NodeExecutor_Execute e node env s)))%nat.
Proof.
  destruct e; cbn [NodeExecutor_Execute]; try (cbn; lia).
  - unfold FormExecutor_Execute. run. destruct (checkFields _ _); cbn; lia.
  - unfold IntegrationExecutor_Execute. run. unfold readState; cbn [fst snd].
    destruct (findCoordinates _ _); run; try (cbn; lia).
    destruct (fst (GetTemperature _ _ _ _ _)) eqn:E; run; try (cbn; lia).
    rewrite setVariable_run.
    destruct (Variables _); cbn; lia.
  - unfold ConditionExecutor_Execute. run. unfold readState; cbn [fst snd].
    destruct (lookupVariable _ _); run; try (cbn; lia).
    destruct (toFloat64 _) as [t []]; cbn [negb]; run; try (cbn; lia).
    rewrite setVariable_run.
    destruct (Variables _); cbn; lia.
Qed.

Variable registry : gmap string NodeExecutor.
Variable env : Env.

Hypothesis steady : monotone env.

Lemma dispatched_clockReads ls s r s2 :
  dispatched registry env ls s r s2 -> (clockReads s < clockReads s2)%nat.
Proof.
  intros (executor & _ & Hx).
  pose proof (NodeExecutor_Execute_clockReads executor (current ls) env
                (snd (timeNow env s))) as L.
  rewrite Hx in L. cbn in L. lia.
Qed.

Lemma Milliseconds_bounds d :
  0 <= d -> 0 <= Milliseconds d /\ Milliseconds d * 1000000 <= d.
Proof.
  intros P. unfold Milliseconds. rewrite Z.quot_div_nonneg by lia.
  split; [apply Z.div_pos; lia|].
  pose proof (Z.mul_div_le d 1000000 ltac:(lia)). lia.
Qed.

Lemma stepsDuration_snoc (l : list ExecutionStep) (step : ExecutionStep) :
  stepsDuration (l ++ [step]) = stepsDuration l + Step_Duration step.
Proof.
  unfold stepsDuration. induction l as [|x l IH]; cbn; [lia|].
  cbn in IH. rewrite IH. lia.
Qed.

Lemma visits_durations s0 ls s :
  visits registry env s0 ls s ->
  (clockReads s0 < clockReads s)%nat /\
  Forall (fun step => 0 <= Step_Duration step) (steps ls) /\
  stepsDuration (steps ls) * 1000000
    <= clock env (clockReads s) - startTimeOf env s0.
Proof.
  revert ls s. apply visits_ind.
  - intros start _. unfold entry, startTimeOf.
    cbn [timeNow snd clockReads steps]. rewrite initVariables_clockReads. split; [lia|]. split; [constructor|].
    pose proof (steady (clockReads s0) (S (clockReads s0)) ltac:(lia)).
    change (stepsDuration []) with 0. lia.
  - intros ls s result s2 node _ (C & P & D) _ X _ _.
    apply dispatched_clockReads in X.
    cbn [steps ticks clockReads].
    pose proof (steady (clockReads s) (clockReads s2) ltac:(lia)) as M.
    pose proof (steady (clockReads s2) (2 + clockReads s2)%nat ltac:(lia)) as M'.
    destruct (Milliseconds_bounds (clock env (clockReads s2) - clock env (clockReads s))
                ltac:(lia)) as (B1 & B2).
    split; [lia|]. split.
    + apply Forall_app. split; [exact P|]. constructor; [|constructor].
      cbn. exact B1.
    + rewrite stepsDuration_snoc. cbn [doneStep newStep Step_Duration]. lia.
Qed.

(** X20. Under a clock that does not run backwards no duration of the
    results is negative, and the durations of the steps add up to at most
    the total duration. *)
Theorem Execute_durations s0 results s' :
  Execute registry env s0 = (Some (Results results), s') ->
  Forall (fun step => 0 <= Step_Duration step) (Steps results) /\
  0 <= stepsDuration (Steps results) <= TotalDuration results.
Proof.
  intros E.
  assert (forall ls s s2 last,
            visits registry env s0 ls s ->
            (clockReads s < clockReads s2)%nat ->
            Step_Duration last
              = Milliseconds (clock env (clockReads s2) - clock env (clockReads s)) ->
            Forall (fun step => 0 <= Step_Duration step) (steps ls ++ [last]) /\
            0 <= stepsDuration (steps ls ++ [last])
              <= Milliseconds (clock env (S (S (clockReads s2)))
                               - startTimeOf env s0)) as A.
  { intros ls s s2 last V X L.
    destruct (visits_durations _ _ _ V) as (C & P & D).
    pose proof (steady (clockReads s) (clockReads s2) ltac:(lia)) as M.
    pose proof (steady (clockReads s2) (S (S (clockReads s2))) ltac:(lia)) as M'.
    destruct (Milliseconds_bounds (clock env (clockReads s2) - clock env (clockReads s))
                ltac:(lia)) as (B1 & B2).
    assert (Forall (fun step => 0 <= Step_Duration step) (steps ls ++ [last])) as F.
    { apply Forall_app. split; [exact P|]. constructor; [|constructor].
      rewrite L. exact B1. }
    split; [exact F|]. split.
    - clear -F. induction F as [|x l Hx _ IH]; cbn; [lia|].
      unfold stepsDuration in IH. lia.
    - rewrite stepsDuration_snoc, L.
      pose proof (steady (clockReads s0) (clockReads s) ltac:(lia)) as M0.
      unfold startTimeOf in *.
      set (spent := Milliseconds (clock env (clockReads s2) - clock env (clockReads s))) in *.
      unfold Milliseconds. rewrite Z.quot_div_nonneg by lia.
      apply Z.div_le_lower_bound; lia. }
  apply Execute_Results in E
    as (ls & s & s2 & V & G & -> & [(execErr & D & ->)|(result & G' & D & N & ->)]);
    cbn [Steps TotalDuration failedResults completedResults];
    apply (A ls s s2); auto; eapply dispatched_clockReads; eauto.
Qed.

End Durations.

(** ** The tables of operators *)

Lemma operatorSymbol_unrecognized (operator : string) :
  ~ In operator validOperators ->
  operatorSymbol operator = "?" /\ operatorLabel operator = operator.
Proof.
  intros Hn. unfold operatorSymbol, operatorLabel.
  repeat match goal with
  | |- context [String.eqb operator ?k] =>
      destruct (String.eqb_spec operator k) as [->|_];
      [exfalso; apply Hn; cbn; tauto|]
  end.
  split; reflexivity.
Qed.

(** X21. The four tables of operators agree: an operator passes
    [validateExecuteRequest] exactly when [operatorSymbol] has a symbol for
    it, exactly when [operatorLabel] has a label for it, and exactly when
    [evaluateCondition] holds for it at some temperature and threshold. *)
Theorem operators_are_known_alike (operator : string) :
  (default false (Handlers.validOperators !! operator) = true <->
   operatorSymbol operator <> "?") /\
  (default false (Handlers.validOperators !! operator) = true <->
   operatorLabel operator <> operator) /\
  (default false (Handlers.validOperators !! operator) = true <->
   exists temperature threshold,
     evaluateCondition temperature operator threshold = true).
Proof.
  rewrite validOperators_lookup.
  destruct (in_dec string_dec operator validOperators) as [I|N].
  - assert (operatorSymbol operator <> "?" /\
            operatorLabel operator <> operator /\
            exists temperature threshold,
              evaluateCondition temperature operator threshold = true)
      as (S & L & E).
    { cbn in I. destruct I as [<-|[<-|[<-|[<-|[<-|[]]]]]];
        (split; [discriminate|split; [discriminate|]]).
      - exists thirty, (F64.of_Z 25). vm_compute. reflexivity.
      - exists (F64.of_Z 25), thirty. vm_compute. reflexivity.
      - exists thirty, thirty. vm_compute. reflexivity.
      - exists thirty, thirty. vm_compute. reflexivity.
      - exists thirty, thirty. vm_compute. reflexivity. }
    tauto.
  - destruct (operatorSymbol_unrecognized operator N) as (S & L).
    pose proof (evaluateCondition_unrecognized) as E.
    split; [|split]; split; try contradiction; try congruence.
    intros (temperature & threshold & T).
    rewrite (E temperature operator threshold N) in T. discriminate T.
Qed.

(** * Concrete runs *)

(** C3. A definition of one hundred nodes in a row, the last of which has
    no outgoing edge: the run reaches its terminal node at step 100, and
    [Execute] returns the error of the step bound all the same; with
    ninety-nine nodes it returns results of status [completed]. *)
Theorem C3_terminal_at_step_100_is_an_error :
  let registry := NewRegistry (constantClient (Temperature thirty)) in
  let state := plainState ∅ "greater_than" (F64.of_Z 25) None in
  length (Nodes (chain 100 "end" [])) = 100%nat /\
  outgoing (chain 100 "end" []) (chainID 99) = [] /\
  summary (fst (@Execute asciiLib registry (steadyEnv "run")
                  (freshStore (chain 100 "end" []) state)))
    = Some (inr ExceededMaximum) /\
  summary (fst (@Execute asciiLib registry (steadyEnv "run")
                  (freshStore (chain 99 "end" []) state)))
    = Some (inl ("completed", 99%nat)).
Proof.
  cbn zeta. repeat split; vm_compute; reflexivity.
Qed.

(** C5. A definition of one hundred nodes in a row whose last node is a
    condition with one outgoing edge, of a handle that is neither [true] nor
    [false]: no edge matches at step 100, and [Execute] returns the error of
    the step bound instead of results of status [completed]; with
    ninety-nine nodes it returns such results. *)
Theorem C5_no_matching_edge_at_step_100_is_an_error :
  let registry := NewRegistry (constantClient (Temperature thirty)) in
  let state :=
    plainState ∅ "greater_than" (F64.of_Z 25)
      (Some {[ "temperature" := VFloat64 thirty ]}) in
  let back i := [plainEdge "back" (chainID i) (chainID 0) "other"] in
  outgoing (chain 100 "condition" (back 99%nat)) (chainID 99) = back 99%nat /\
  summary (fst (@Execute asciiLib registry (steadyEnv "run")
                  (freshStore (chain 100 "condition" (back 99%nat)) state)))
    = Some (inr ExceededMaximum) /\
  summary (fst (@Execute asciiLib registry (steadyEnv "run")
                  (freshStore (chain 99 "condition" (back 98%nat)) state)))
    = Some (inl ("completed", 99%nat)).
Proof.
  cbn zeta. repeat split; vm_compute; reflexivity.
Qed.

(** ** Instances *)

Lemma afterStart_visits (wf : Workflow) (start : Node) :
  findStartNode (Nodes wf) = Some start ->
  (exists ls s,
     @body asciiLib builtin (buildEdgeMap (Edges wf)) (buildNodeMap (Nodes wf))
       (startTimeOf (steadyEnv "run") (freshStore wf emptyState))
       {| current := start; steps := []; stepNum := 0 |}
       (steadyEnv "run") (entry (steadyEnv "run") (freshStore wf emptyState))
     = (Continue ls, s)) ->
  @visits asciiLib builtin (steadyEnv "run") (freshStore wf emptyState)
    (fst (afterStart wf start)) (snd (afterStart wf start)).
Proof.
  intros E (ls & s & B). exists start. split; [exact E|].
  eapply reaches_next; [reflexivity| |apply reaches_here].
  unfold afterStart. cbn zeta. cbn [heapWorkflow freshStore] in *.
  rewrite B. reflexivity.
Defined.

(** C1 on the definition [start -> form] and an empty form: the form
    executor fails at the second step. *)
Lemma C1_witness :
  let s0 := freshStore twoNodes emptyState in
  let ls := fst (afterStart twoNodes (plainNode "start" "start" "Start" ∅)) in
  let s := snd (afterStart twoNodes (plainNode "start" "start" "Start" ∅)) in
  let s2 := snd (timeNow (steadyEnv "run") s) in
  @visits asciiLib builtin (steadyEnv "run") s0 ls s /\
  stepNum ls < maxSteps /\
  @dispatched asciiLib builtin (steadyEnv "run") ls s
    (Failed "missing required field: name") s2 /\
  exists results step s',
    @Execute asciiLib builtin (steadyEnv "run") s0
      = (Some (Results results), s') /\
    Status results = "failed" /\
    Steps results = steps ls ++ [step] /\
    Forall (fun st => Step_Status st = "completed") (steps ls) /\
    Step_Status step = "error" /\
    Step_Error step = "missing required field: name" /\
    Step_Output step
      = {[ "message" := VString ("Error: " +:+ "missing required field: name") ]} /\
    Step_NodeID step = Node_ID (current ls) /\
    Step_StepNumber step = stepNum ls + 1 /\
    Z.of_nat (length (Steps results)) = stepNum ls + 1 /\
    heapState s' = heapState s2 /\
    apiCalls s' = apiCalls s2.
Proof.
  cbn zeta.
  assert (@visits asciiLib builtin (steadyEnv "run")
            (freshStore twoNodes emptyState)
            (fst (afterStart twoNodes (plainNode "start" "start" "Start" ∅)))
            (snd (afterStart twoNodes (plainNode "start" "start" "Start" ∅))))
    as V.
  { apply afterStart_visits; [reflexivity|].
    eexists _, _. vm_compute. reflexivity. }
  assert (stepNum (fst (afterStart twoNodes
                          (plainNode "start" "start" "Start" ∅))) < maxSteps)
    as G by (vm_compute; reflexivity).
  assert (@dispatched asciiLib builtin (steadyEnv "run")
            (fst (afterStart twoNodes (plainNode "start" "start" "Start" ∅)))
            (snd (afterStart twoNodes (plainNode "start" "start" "Start" ∅)))
            (Failed "missing required field: name")
            (snd (timeNow (steadyEnv "run")
                    (snd (afterStart twoNodes
                            (plainNode "start" "start" "Start" ∅))))))
    as D.
  { exists FormExecutor. split; vm_compute; reflexivity. }
  split; [exact V|]. split; [exact G|]. split; [exact D|].
  exact (@C1_step_failure_is_returned_as_data asciiLib builtin
           (steadyEnv "run") _ _ _ _ _ V G D).
Defined.







(** C7 on the integration node of the tests and a state whose variables
    are the empty map. *)
Lemma C7_witness :
  let client := constantClient (Temperature thirty) in
  let s := freshStore weatherAlert (alice (Some ∅)) in
  Variables (heapState s) = Some ∅ /\
  exists result s',
    @IntegrationExecutor_Execute asciiLib client weatherNode (steadyEnv "run") s
      = (Done result, s') /\
    Result_Status result = "completed" /\
    Result_Output result !! "temperature" = Some (VFloat64 thirty) /\
    Variables (heapState s') = Some (<["temperature" := VFloat64 thirty]> ∅) /\
    apiCalls s' = S (apiCalls s).
Proof.
  cbn zeta. split; [reflexivity|].
  exact (@C7_integration_executor asciiLib
           (constantClient (Temperature thirty)) weatherNode (steadyEnv "run")
           (freshStore weatherAlert (alice (Some ∅))) ∅ eq_refl).
Defined.

(** C7 without its premise: on a state whose map of variables is nil the
    integration executor, once the client has answered, panics: nothing is
    stored and no result is returned. *)
Lemma C7_counterexample :
  let client := constantClient (Temperature thirty) in
  let s := freshStore weatherAlert (alice None) in
  let run :=
    @IntegrationExecutor_Execute asciiLib client weatherNode (steadyEnv "run") s in
  fst run = Panicked /\
  apiCalls (snd run) = 1%nat /\
  lookupVariable (heapState (snd run)) "temperature" = None /\
  ~ (exists result s',
       run = (Done result, s') /\
       lookupVariable (heapState s') "temperature" = Some (VFloat64 thirty)).
Proof.
  cbn zeta.
  assert (fst (@IntegrationExecutor_Execute asciiLib
                 (constantClient (Temperature thirty)) weatherNode
                 (steadyEnv "run") (freshStore weatherAlert (alice None)))
          = Panicked) as E by (vm_compute; reflexivity).
  split; [exact E|]. split; [vm_compute; reflexivity|].
  split; [vm_compute; reflexivity|].
  intros (result & s' & Hrun & _). rewrite Hrun in E. discriminate E.
Qed.

(** C8 at the operator [approximately]. *)
Lemma C8_witness :
  let s :=
    freshStore weatherAlert
      (plainState ∅ "approximately" (F64.of_Z 25)
         (Some {[ "temperature" := VFloat64 thirty ]})) in
  let node := plainNode "condition" "condition" "Check Condition" ∅ in
  lookupVariable (heapState s) "temperature" = Some (VFloat64 thirty) /\
  toFloat64 (VFloat64 thirty) = (thirty, true) /\
  ~ In (Operator (Condition (heapState s))) validOperators /\
  (forall t th,
     evaluateCondition t (Operator (Condition (heapState s))) th = false) /\
  exists result s',
    ConditionExecutor_Execute node (steadyEnv "run") s
      = (Done result, s') /\
    Result_Status result = "completed" /\
    Result_Error result = EmptyString /\
    Result_Output result !! "conditionMet" = Some (VBool false) /\
    lookupVariable (heapState s') "conditionResult" = Some (VString "false").
Proof.
  cbn zeta.
  assert (~ In "approximately" validOperators) as Hop.
  { cbn. intros [E|[E|[E|[E|[E|[]]]]]]; discriminate E. }
  split; [reflexivity|]. split; [reflexivity|]. split; [exact Hop|].
  exact (C8_unrecognized_operator_is_false
           (plainNode "condition" "condition" "Check Condition" ∅)
           (steadyEnv "run")
           (freshStore weatherAlert
              (plainState ∅ "approximately" (F64.of_Z 25)
                 (Some {[ "temperature" := VFloat64 thirty ]})))
           (VFloat64 thirty) thirty eq_refl eq_refl Hop).
Defined.

(** ** The tests of the package *)

(** [TestEngine_HappyPath_ConditionTrue] *)
Example happy_path_condition_true :
  let r := fst (@Execute asciiLib
                  (NewRegistry (constantClient (Temperature thirty)))
                  (steadyEnv "run") (freshStore weatherAlert (alice None))) in
  summary r = Some (inl ("completed", 6%nat)) /\
  trace r = [(1, "start", "completed"); (2, "form", "completed");
             (3, "integration", "completed"); (4, "condition", "completed");
             (5, "email", "completed"); (6, "end", "completed")].
Proof. cbn zeta. split; vm_compute; reflexivity. Qed.

(** [TestEngine_HappyPath_ConditionFalse] *)
Example happy_path_condition_false :
  let r := fst (@Execute asciiLib
                  (NewRegistry (constantClient (Temperature (F64.of_Z 20))))
                  (steadyEnv "run") (freshStore weatherAlert (alice None))) in
  summary r = Some (inl ("completed", 5%nat)) /\
  trace r = [(1, "start", "completed"); (2, "form", "completed");
             (3, "integration", "completed"); (4, "condition", "completed");
             (5, "end", "completed")].
Proof. cbn zeta. split; vm_compute; reflexivity. Qed.

(** [TestEngine_StopsOnError] *)
Example stops_on_error :
  let r := fst (@Execute asciiLib
                  (NewRegistry (constantClient (LookupError "API timeout")))
                  (steadyEnv "run") (freshStore weatherAlert (alice None))) in
  summary r = Some (inl ("failed", 3%nat)) /\
  trace r = [(1, "start", "completed"); (2, "form", "completed");
             (3, "integration", "error")].
Proof. cbn zeta. split; vm_compute; reflexivity. Qed.

(** [TestEngine_CycleProtection] *)
Example cycle_protection :
  summary (fst (@Execute asciiLib
                  (list_to_map [("start", StartExecutor); ("end", EndExecutor)])
                  (steadyEnv "run")
                  (freshStore
                     (plainWorkflow
                        [plainNode "a" "start" "A" ∅; plainNode "b" "start" "B" ∅]
                        [plainEdge "e1" "a" "b" EmptyString;
                         plainEdge "e2" "b" "a" EmptyString])
                     emptyState)))
    = Some (inr ExceededMaximum).
Proof. vm_compute. reflexivity. Qed.

(** ** Instances of the further properties *)

(** X2 on the definition [start -> form] and an empty form. *)
Lemma Execute_results_shape_witness :
  exists results s',
    @Execute asciiLib builtin (steadyEnv "run") (freshStore twoNodes emptyState)
      = (Some (Results results), s') /\
    ExecutionID results = uuid (steadyEnv "run") /\
    exists init last,
      Steps results = init ++ [last] /\
      Forall (fun step => Step_Status step = "completed") init /\
      ((Status results = "completed" /\
        Step_Status last = "completed" /\
        Step_Error last = EmptyString) \/
       (Status results = "failed" /\
        Step_Status last = "error" /\
        Step_Output last
          = {[ "message" := VString ("Error: " +:+ Step_Error last) ]})).
Proof.
  eexists _, _.
  assert (@Execute asciiLib builtin (steadyEnv "run")
            (freshStore twoNodes emptyState)
          = (Some (Results _), _)) as E by (vm_compute; reflexivity).
  split; [exact E|].
  exact (@Execute_results_shape asciiLib builtin (steadyEnv "run") _ _ _ E).
Defined.

(** X3 on the same run. *)
Lemma Execute_numbers_the_steps_witness :
  exists results s',
    @Execute asciiLib builtin (steadyEnv "run") (freshStore twoNodes emptyState)
      = (Some (Results results), s') /\
    numbered (Steps results) /\
    (0 < length (Steps results) <= 100)%nat /\
    (Status results = "completed" -> (length (Steps results) < 100)%nat).
Proof.
  eexists _, _.
  assert (@Execute asciiLib builtin (steadyEnv "run")
            (freshStore twoNodes emptyState)
          = (Some (Results _), _)) as E by (vm_compute; reflexivity).
  split; [exact E|].
  exact (@Execute_numbers_the_steps asciiLib builtin (steadyEnv "run") _ _ _ E).
Defined.

(** X4 on the same run. *)
Lemma Execute_trace_is_a_path_witness :
  exists results s',
    @Execute asciiLib builtin (steadyEnv "run") (freshStore twoNodes emptyState)
      = (Some (Results results), s') /\
    head (map Step_NodeID (Steps results))
      = Node_ID <$> findStartNode (Nodes twoNodes) /\
    linked twoNodes (map Step_NodeID (Steps results)) /\
    Forall (recordOf twoNodes) (Steps results).
Proof.
  eexists _, _.
  assert (@Execute asciiLib builtin (steadyEnv "run")
            (freshStore twoNodes emptyState)
          = (Some (Results _), _)) as E by (vm_compute; reflexivity).
  split; [exact E|].
  exact (@Execute_trace_is_a_path asciiLib builtin (steadyEnv "run") _ _ _ E).
Defined.

(** X5 on a definition without start node. *)
Lemma Execute_error_has_a_cause_witness :
  let s0 := freshStore noStart emptyState in
  let s' := entry (steadyEnv "run") s0 in
  @Execute asciiLib builtin (steadyEnv "run") s0
    = (Some (EngineFailure NoStartNode), s') /\
  (@engineFault asciiLib builtin (steadyEnv "run") s0 NoStartNode s' \/
   (NoStartNode = ExceededMaximum /\
    exists ls s result s2,
      @visits asciiLib builtin (steadyEnv "run") s0 ls s /\
      stepNum ls + 1 = maxSteps /\
      @dispatched asciiLib builtin (steadyEnv "run") ls s (Done result) s2 /\
      successor s0 ls s2 = EmptyString /\
      s' = ticks 2 s2)).
Proof.
  cbn zeta.
  assert (@Execute asciiLib builtin (steadyEnv "run")
            (freshStore noStart emptyState)
          = (Some (EngineFailure NoStartNode),
             entry (steadyEnv "run") (freshStore noStart emptyState))) as E
    by (vm_compute; reflexivity).
  split; [exact E|].
  exact (@Execute_error_has_a_cause asciiLib builtin (steadyEnv "run") _ _ _ E).
Defined.

(** X6 on the workflow of the tests. *)
Lemma Execute_on_a_well_formed_definition_witness :
  let s0 := freshStore weatherAlert (alice None) in
  let start := plainNode "start" "start" "Start" ∅ in
  findStartNode (Nodes (heapWorkflow s0)) = Some start /\
  (forall node, node ∈ Nodes (heapWorkflow s0) ->
     is_Some (builtin !! Node_Type node)) /\
  (forall edge, edge ∈ Edges (heapWorkflow s0) ->
     exists node, node ∈ Nodes (heapWorkflow s0) /\
                  Node_ID node = Edge_Target edge) /\
  (forall edge, edge ∈ Edges (heapWorkflow s0) ->
     (weatherAlertRank (Edge_Target edge)
        < weatherAlertRank (Edge_Source edge))%nat) /\
  (weatherAlertRank (Node_ID start) < 99)%nat /\
  exists results s',
    @Execute asciiLib builtin (steadyEnv "run") s0
      = (Some (Results results), s').
Proof.
  cbn zeta.
  assert (findStartNode (Nodes (heapWorkflow (freshStore weatherAlert (alice None))))
          = Some (plainNode "start" "start" "Start" ∅)) as Hs by reflexivity.
  assert (forall node,
            node ∈ Nodes (heapWorkflow (freshStore weatherAlert (alice None))) ->
            is_Some (builtin !! Node_Type node)) as Hr.
  { intros node I. cbn in I.
    repeat (apply elem_of_cons in I as [->|I]; [vm_compute; eauto|]).
    apply elem_of_nil in I. contradiction. }
  assert (forall edge,
            edge ∈ Edges (heapWorkflow (freshStore weatherAlert (alice None))) ->
            exists node,
              node ∈ Nodes (heapWorkflow (freshStore weatherAlert (alice None))) /\
              Node_ID node = Edge_Target edge) as Ht.
  { intros edge I. cbn in I.
    repeat (apply elem_of_cons in I as [->|I];
            [match goal with
             | |- exists node, _ /\ _ = Edge_Target ?e =>
                 exists (default (plainNode EmptyString EmptyString EmptyString ∅)
                           (List.find
                              (fun node => String.eqb (Node_ID node) (Edge_Target e))
                              (Nodes weatherAlert)))
             end;
             split; [|reflexivity]; vm_compute;
             repeat (apply list_elem_of_here || apply list_elem_of_further)|]).
    apply elem_of_nil in I. contradiction. }
  assert (forall edge,
            edge ∈ Edges (heapWorkflow (freshStore weatherAlert (alice None))) ->
            (weatherAlertRank (Edge_Target edge)
               < weatherAlertRank (Edge_Source edge))%nat) as Hd.
  { intros edge I. cbn in I.
    repeat (apply elem_of_cons in I as [->|I]; [vm_compute; lia|]).
    apply elem_of_nil in I. contradiction. }
  assert (weatherAlertRank (Node_ID (plainNode "start" "start" "Start" ∅)) < 99)%nat
    as Hn by (vm_compute; lia).
  split; [exact Hs|]. split; [exact Hr|]. split; [exact Ht|].
  split; [exact Hd|]. split; [exact Hn|].
  exact (@Execute_on_a_well_formed_definition asciiLib builtin (steadyEnv "run")
           _ weatherAlertRank _ Hs Hr Ht Hd Hn).
Defined.

(** X7 on a state with a further variable. *)
Lemma Execute_writes_two_variables_witness :
  let s0 :=
    freshStore twoNodes
      (plainState ∅ "greater_than" (F64.of_Z 25)
         (Some {[ "note" := VString "kept" ]})) in
  "note" <> "temperature" /\
  "note" <> "conditionResult" /\
  lookupVariable
    (heapState (snd (@Execute asciiLib builtin (steadyEnv "run") s0))) "note"
    = lookupVariable (heapState s0) "note" /\
  is_Some (Variables
             (heapState (snd (@Execute asciiLib builtin (steadyEnv "run") s0)))).
Proof.
  cbn zeta.
  assert ("note" <> "temperature") as Nt by discriminate.
  assert ("note" <> "conditionResult") as Nc by discriminate.
  split; [exact Nt|]. split; [exact Nc|].
  exact (@Execute_writes_two_variables asciiLib builtin (steadyEnv "run")
           _ "note" Nt Nc).
Defined.

(** X8 on the definition [start -> weather-api] when the weather service
    is down: one lookup, for the one integration step. *)
Lemma Execute_consults_the_service_once_per_integration_step_witness :
  let s0 := freshStore lookupOnly (alice None) in
  exists results s',
    @Execute asciiLib
      (NewRegistry (constantClient (LookupError "service unavailable")))
      (steadyEnv "run") s0
      = (Some (Results results), s') /\
    (apiCalls s0 <= apiCalls s'
       <= apiCalls s0
          + length (filter (fun step => Step_NodeType step = "integration")
                      (Steps results)))%nat.
Proof.
  cbn zeta. eexists _, _.
  assert (@Execute asciiLib
            (NewRegistry (constantClient (LookupError "service unavailable")))
            (steadyEnv "run") (freshStore lookupOnly (alice None))
          = (Some (Results _), _)) as E by (vm_compute; reflexivity).
  split; [exact E|].
  exact (@Execute_consults_the_service_once_per_integration_step asciiLib
           _ _ _ _ _ E).
Defined.

(** X15 on a name that reads like a placeholder. *)
Lemma emailReplacer_replaces_in_one_pass_witness :
  let replace := Replacer_Replace (emailReplacer "{{city}}" "Sydney" thirty) in
  braceFree "Dear " = true /\
  replace "Dear " = "Dear " /\
  replace ("Dear " +:+ "{{name}}" +:+ ", hello")
    = "Dear " +:+ "{{city}}" +:+ replace ", hello" /\
  replace ("Dear " +:+ "{{city}}" +:+ ", hello")
    = "Dear " +:+ "Sydney" +:+ replace ", hello" /\
  replace ("Dear " +:+ "{{temperature}}" +:+ ", hello")
    = "Dear " +:+ F64.format_f1 thirty +:+ replace ", hello".
Proof.
  cbn zeta.
  assert (braceFree "Dear " = true) as P by reflexivity.
  split; [exact P|].
  exact (emailReplacer_replaces_in_one_pass "{{city}}" "Sydney" thirty
           "Dear " ", hello" P).
Defined.

(** X17 on a request whose name is a blank. *)
Lemma FormExecutor_Execute_after_validation_witness :
  let node := plainNode "form" "form" "User Input" ∅ in
  let s := freshStore twoNodes (@Handlers.newState blankName) in
  let err := "field name must be a non-empty string" in
  Handlers.validateExecuteRequest blankName = None /\
  heapState s = Handlers.newState blankName /\
  fst (@FormExecutor_Execute asciiLib node (steadyEnv "run") s) = Failed err /\
  exists field text,
    field ∈ ["name"; "email"; "city"] /\
    FormData (heapState s) !! field = Some (VString text) /\
    text <> EmptyString /\
    @TrimSpace asciiLib text = EmptyString /\
    err = "field " +:+ field +:+ " must be a non-empty string".
Proof.
  cbn zeta.
  assert (Handlers.validateExecuteRequest blankName = None) as V
    by (vm_compute; reflexivity).
  assert (heapState (freshStore twoNodes (Handlers.newState blankName))
          = Handlers.newState blankName) as S by reflexivity.
  assert (fst (@FormExecutor_Execute asciiLib
                 (plainNode "form" "form" "User Input" ∅) (steadyEnv "run")
                 (freshStore twoNodes (Handlers.newState blankName)))
          = Failed "field name must be a non-empty string") as F
    by (vm_compute; reflexivity).
  split; [exact V|]. split; [exact S|]. split; [exact F|].
  exact (@FormExecutor_Execute_after_validation asciiLib blankName _ _ _ _ V S F).
Defined.

(** X19 at temperature 30 and the condition [greater_than 25], on the edges
    of the workflow of the tests. *)
Lemma ConditionExecutor_Execute_chooses_the_branch_witness :
  let node := plainNode "condition" "condition" "Check Condition" ∅ in
  let s :=
    freshStore weatherAlert
      (alice (Some {[ "temperature" := VFloat64 thirty ]})) in
  let edges := outgoing weatherAlert "condition" in
  Node_Type node = "condition" /\
  exists result s2,
    ConditionExecutor_Execute node (steadyEnv "run") s = (Done result, s2) /\
    exists v t,
      lookupVariable (heapState s) "temperature" = Some v /\
      toFloat64 v = (t, true) /\
      let met :=
        evaluateCondition t (Operator (Condition (heapState s)))
          (Threshold (Condition (heapState s))) in
      Result_Output result !! "conditionMet" = Some (VBool met) /\
      lookupVariable (heapState s2) "conditionResult"
        = Some (VString (branchToken met)) /\
      nextNodeID node edges (heapState s2) =
        match List.find (fun edge =>
                           String.eqb (Edge_SourceHandle edge) (branchToken met))
                edges with
        | Some edge => Edge_Target edge
        | None => EmptyString
        end.
Proof.
  cbn zeta.
  assert (Node_Type (plainNode "condition" "condition" "Check Condition" ∅)
          = "condition") as T by reflexivity.
  split; [exact T|]. eexists _, _.
  assert (ConditionExecutor_Execute
            (plainNode "condition" "condition" "Check Condition" ∅)
            (steadyEnv "run")
            (freshStore weatherAlert
               (alice (Some {[ "temperature" := VFloat64 thirty ]})))
          = (Done _, _)) as E by (vm_compute; reflexivity).
  split; [exact E|].
  exact (ConditionExecutor_Execute_chooses_the_branch _ _ _ _ _
           (outgoing weatherAlert "condition") T E).
Defined.

Lemma steadyEnv_monotone (id : string) : monotone (steadyEnv id).
Proof. intros i j L. cbn. lia. Defined.

(** X20 on the definition [start -> form] and an empty form, under the
    steady clock. *)
Lemma Execute_durations_witness :
  monotone (steadyEnv "run") /\
  exists results s',
    @Execute asciiLib builtin (steadyEnv "run") (freshStore twoNodes emptyState)
      = (Some (Results results), s') /\
    Forall (fun step => 0 <= Step_Duration step) (Steps results) /\
    0 <= stepsDuration (Steps results) <= TotalDuration results.
Proof.
  split; [apply steadyEnv_monotone|]. eexists _, _.
  assert (@Execute asciiLib builtin (steadyEnv "run")
            (freshStore twoNodes emptyState)
          = (Some (Results _), _)) as E by (vm_compute; reflexivity).
  split; [exact E|].
  exact (@Execute_durations asciiLib builtin (steadyEnv "run")
           (steadyEnv_monotone "run") _ _ _ E).
Defined.
